(** * fakegorm: the call-expectation engine of [main.go]

    A shallow embedding of the expectation queue of package [gorm]
    (module [github.com/jinzhu/gorm]): declaring expectations, the
    intercepted operations that all forward to [query], parameter
    verification, output projection and [ExpectationsMet].

    The Go standard library the engine calls ([reflect], [encoding/json],
    [fmt]) is not part of the repository; it is taken as an interface
    ([Runtime]) the engine is parametric in.  A small instance of that
    interface ([Module Tiny]) is used to run the engine on concrete
    inputs. *)

From Stdlib Require Import ZArith Lia Ascii String.
From stdpp Require Import base tactics option list strings pretty.

Local Open Scope Z_scope.

(** ** Go basics *)

(** [reflect.Kind], with [Kind.String]. *)
Inductive Kind : Type :=
| Invalid | Bool | Int | Int8 | Int16 | Int32 | Int64
| Uint | Uint8 | Uint16 | Uint32 | Uint64 | Uintptr
| Float32 | Float64 | Complex64 | Complex128
| Array | Chan | Func | Interface | Map | Ptr | Slice
| String_ | Struct | UnsafePointer.

#[global] Instance Kind_eq_dec : EqDecision Kind.
Proof. solve_decision. Defined.

Definition Kind_String (k : Kind) : string :=
  match k with
  | Invalid => "invalid" | Bool => "bool" | Int => "int" | Int8 => "int8"
  | Int16 => "int16" | Int32 => "int32" | Int64 => "int64"
  | Uint => "uint" | Uint8 => "uint8" | Uint16 => "uint16"
  | Uint32 => "uint32" | Uint64 => "uint64" | Uintptr => "uintptr"
  | Float32 => "float32" | Float64 => "float64"
  | Complex64 => "complex64" | Complex128 => "complex128"
  | Array => "array" | Chan => "chan" | Func => "func"
  | Interface => "interface" | Map => "map" | Ptr => "ptr"
  | Slice => "slice" | String_ => "string" | Struct => "struct"
  | UnsafePointer => "unsafe.Pointer"
  end.

(** A Go [error] value.  [errors_New] is [errors.New]; [json_error] stands
    for the error values [encoding/json] returns. *)
Inductive error : Type :=
| errors_New (text : string)
| json_error (text : string).

#[global] Instance error_eq_dec : EqDecision error.
Proof. solve_decision. Defined.

(** Go's [int] is 64 bits wide here; [int_wrap] is its wrap-around. *)
Definition max_int : Z := 2 ^ 63 - 1.
Definition int_wrap (z : Z) : Z := (z + 2 ^ 63) mod 2 ^ 64 - 2 ^ 63.

(** [len(s)] as a Go [int]. *)
Definition len {A} (s : list A) : Z := Z.of_nat (length s).

(** The two run-time panics the engine can raise. *)
Inductive panic : Type :=
| index_out_of_range
| nil_pointer_dereference.

#[global] Instance panic_eq_dec : EqDecision panic.
Proof. solve_decision. Defined.

(** [strings.Split(s, sep)] for a one-character separator. *)
Fixpoint strings_Split_from (sep : ascii) (s : string) (cur : string) : list string :=
  match s with
  | EmptyString => [cur]
  | String c s' =>
      if Ascii.eqb c sep then cur :: strings_Split_from sep s' ""
      else strings_Split_from sep s' (cur +:+ String c "")
  end.

Definition strings_Split (s : string) (sep : ascii) : list string :=
  strings_Split_from sep s "".

(** ** The Go runtime the engine runs on *)

(** Values of type [interface{}], the memory pointers refer into, and the
    library functions [main.go] calls on them. *)
Class Runtime : Type := {
  (** dynamic values of type [interface{}]; the nil interface is one of them *)
  value : Type;
  (** the memory that pointer values refer into *)
  mem : Type;
  (** [*p]: the referent of a pointer value, if it has one *)
  load : mem -> value -> option value;
  (** [reflect.Type]; [reflect_TypeOf] is [None] for the nil interface,
      for which [reflect.TypeOf] returns a nil [Type] *)
  rtype : Type;
  reflect_TypeOf : value -> option rtype;
  rtype_Kind : rtype -> Kind;
  (** [reflect.DeepEqual(x, y)] *)
  reflect_DeepEqual : mem -> value -> value -> bool;
  (** the [%v] verb of [fmt.Sprintf] *)
  fmt_v : mem -> value -> string;
  (** the [[]byte] [json.Marshal] produces *)
  json_text : Type;
  json_Marshal : mem -> value -> json_text + error;
  (** [json.Unmarshal(data, dst)]: the memory after the call and the error *)
  json_Unmarshal : json_text -> value -> mem -> mem * option error;
  (** [Copy], which [WithOutput] calls; its definition is not in [main.go].
      It may allocate, so it returns the memory too. *)
  Copy : value -> mem -> value * mem;
  (** [*sql.DB] and [sqlmock.New()] (the mock itself is dropped by the code) *)
  sql_DB : Type;
  sqlmock_New : sql_DB * option error
}.

Section Engine.
Context `{RT : Runtime}.

(** ** Data model *)

(** [type expectation struct]. *)
Record expectation : Type := mk_expectation {
  Function : string;
  Params : list value;
  Output : list value;
  Error' : option error
}.

(** [type DB struct]; [Error] is the public field. *)
Record DB : Type := mk_DB {
  db : option sql_DB;
  Error : option error;
  expectations : list expectation;
  index : Z;
  testErrors : list error
}.

(** ** Effects: the handle, the memory, and panics *)

(** The result of running a method on the handle [it]: it returns with a
    value, or it panics; either way the handle and the memory are left in
    some state. *)
Inductive outcome (A : Type) : Type :=
| Returns (a : A) (it : DB) (m : mem)
| Panics (p : panic) (it : DB) (m : mem).
Arguments Returns {A} a it m.
Arguments Panics {A} p it m.

Definition M (A : Type) : Type := DB -> mem -> outcome A.

#[global] Instance M_ret : MRet M := fun A a it m => Returns a it m.
#[global] Instance M_bind : MBind M := fun A B f c it m =>
  match c it m with
  | Returns a it' m' => f a it' m'
  | Panics p it' m' => Panics p it' m'
  end.

Definition get_it : M DB := fun it m => Returns it it m.
Definition set_it (it' : DB) : M unit := fun _ m => Returns tt it' m.
Definition get_mem : M mem := fun it m => Returns m it m.
Definition set_mem (m' : mem) : M unit := fun it _ => Returns tt it m'.
Definition raise {A} (p : panic) : M A := fun it m => Panics p it m.

(** [s[i]] on a slice: panics when [i] is out of range. *)
Definition index_slice {A} (s : list A) (i : Z) : M A :=
  if (0 <=? i) && (i <? len s) then
    match s !! Z.to_nat i with
    | Some x => mret x
    | None => raise index_out_of_range
    end
  else raise index_out_of_range.

(** The expression [it.expectations[it.index]]. *)
Definition current_expectation : M expectation :=
  it ← get_it; index_slice (expectations it) (index it).

(** [it.testErrors = append(it.testErrors, err)]. *)
Definition append_testError (err : error) : M unit :=
  it ← get_it;
  set_it (mk_DB (db it) (Error it) (expectations it) (index it)
                (testErrors it ++ [err])).

(** ** Opening a handle *)

Definition Open (dialect : string) (args : list value) : DB * option error :=
  let '(d, err) := sqlmock_New in
  (mk_DB (Some d) None [] 0 [], err).

Definition New (it : DB) : DB :=
  let '(d, _) := sqlmock_New in
  mk_DB (Some d) None [] 0 [].

(** ** Declaring expectations *)

(** [ExpectCall] appends [expectation{Function: fn}]; the pointer it
    returns, [&it.expectations[len(it.expectations)-1]], is the last slot. *)
Definition ExpectCall (fn : string) (it : DB) : DB :=
  mk_DB (db it) (Error it)
        (expectations it ++ [mk_expectation fn [] [] None])
        (index it) (testErrors it).

Definition WithParams (params : list value) (e : expectation) : expectation :=
  fold_left (fun e p => mk_expectation (Function e) (Params e ++ [p]) (Output e) (Error' e))
            params e.

Definition WithOutput (output : list value) (e : expectation) (m : mem)
  : expectation * mem :=
  fold_left (fun '(e, m) o =>
               let '(copy, m') := Copy o m in
               (mk_expectation (Function e) (Params e) (Output e ++ [copy]) (Error' e), m'))
            output (e, m).

Definition WithError (err : option error) (e : expectation) : expectation :=
  mk_expectation (Function e) (Params e) (Output e) err.

(** A builder method applied through the pointer [ExpectCall] returned. *)
Definition on_last (f : expectation -> expectation) (it : DB) : DB :=
  match reverse (expectations it) with
  | [] => it
  | e :: before =>
      mk_DB (db it) (Error it) (reverse before ++ [f e]) (index it) (testErrors it)
  end.

(** ** Verification *)

Definition ExpectationsMet : M (option error) :=
  it ← get_it;
  if 0 <? len (testErrors it) then
    e ← index_slice (testErrors it) 0; mret (Some e)
  else if index it <? len (expectations it) then
    mret (Some (errors_New "Not all expectations met"))
  else mret None.

(** ** The call-recording entry point *)

(** A call stack: the [Function] names of the active frames, innermost
    first. *)
Definition stack : Type := list string.

Definition method_frame (name : string) : string :=
  "github.com/jinzhu/gorm.(*DB)." +:+ name.

(** [runtime.Callers(skip, pc)] for a [pc] of length 1, called from a
    function whose stack (its own frame first) is [stk]: frame 0 is
    [runtime.Callers] itself. *)
Definition runtime_Callers (skip : nat) (stk : stack) : list string :=
  take 1 (drop skip ("runtime.Callers" :: stk)).

(** [getFnName], called by a function whose stack is [callers].
    [frames.Next()] on nothing gives the zero [Frame], whose [Function] is
    empty. *)
Definition getFnName (callers : stack) : M string :=
  let pc := runtime_Callers 3 (method_frame "getFnName" :: callers) in
  let frame_Function := default "" (head pc) in
  let pathParts := strings_Split frame_Function "." in
  index_slice pathParts (len pathParts - 1).

(** The loop of [verifyParams]; [rest] is [params[i:]]. *)
Fixpoint verifyParams_loop (fn : string) (i : Z) (rest : list value)
  : M (option error) :=
  match rest with
  | [] => mret None
  | p :: rest' =>
      e ← current_expectation;
      expected ← index_slice (Params e) i;
      m ← get_mem;
      if negb (reflect_DeepEqual m p expected) then
        mret (Some (errors_New ("Unexpected parameter " +:+ fmt_v m p
                                +:+ " in func " +:+ fn
                                +:+ "; expected " +:+ fmt_v m expected)))
      else verifyParams_loop fn (i + 1) rest'
  end.

Definition verifyParams (fn : string) (params : list value) : M (option error) :=
  e ← current_expectation;
  if len (Params e) =? 0 then mret None
  else
    e ← current_expectation;
    if len (Params e) >? len params then
      mret (Some (errors_New "Not enough parameters"))
    else
      e ← current_expectation;
      if len (Params e) <? len params then
        mret (Some (errors_New "Too many parameters"))
      else verifyParams_loop fn 0 params.

Definition deepCopy (src dst : value) : M (option error) :=
  m ← get_mem;
  match json_Marshal m src with
  | inr err => mret (Some err)
  | inl encoded =>
      let '(m', err) := json_Unmarshal encoded dst m in
      set_mem m';; mret err
  end.

(** The loop of [setOutputParams]; [rest] is [params[i:]].  The value
    [deepCopy] returns is dropped, as in the source. *)
Fixpoint setOutputParams_loop (i : Z) (rest : list value) : M (option error) :=
  match rest with
  | [] => mret None
  | p :: rest' =>
      e ← current_expectation;
      if i >=? len (Output e) then mret None
      else
        match reflect_TypeOf p with
        | None => raise nil_pointer_dereference
        | Some t =>
            if decide (rtype_Kind t ≠ Ptr) then
              mret (Some (errors_New ("Out parameters must be pointers. Got kind "
                                      +:+ Kind_String (rtype_Kind t) +:+ ".")))
            else
              e ← current_expectation;
              src ← index_slice (Output e) i;
              deepCopy src p;;
              setOutputParams_loop (i + 1) rest'
        end
  end.

Definition setOutputParams (params : list value) : M (option error) :=
  e ← current_expectation;
  if len (Output e) =? 0 then mret None
  else setOutputParams_loop 0 params.

Definition setError : M unit :=
  e ← current_expectation;
  it ← get_it;
  set_it (mk_DB (db it) (Error' e) (expectations it) (index it) (testErrors it)).

(** [query], called by a function whose stack is [callers]. *)
Definition query (callers : stack) (params : list value) : M unit :=
  fnName ← getFnName (method_frame "query" :: callers);
  it ← get_it;
  if index it >=? len (expectations it) then
    append_testError (errors_New ("Unexpected call to " +:+ fnName))
  else
    e ← current_expectation;
    let expected := Function e in
    (if negb (String.eqb fnName expected) then
       append_testError (errors_New ("Unexpected call to " +:+ fnName
                                     +:+ "; expected " +:+ expected))
     else mret tt);;
    err ← verifyParams fnName params;
    match err with Some err => append_testError err | None => mret tt end;;
    err ← setOutputParams params;
    match err with Some err => append_testError err | None => mret tt end;;
    setError;;
    it ← get_it;
    set_it (mk_DB (db it) (Error it) (expectations it) (int_wrap (index it + 1))
                  (testErrors it)).

(** ** The intercepted operations

    Each takes the stack of its caller and pushes its own frame. *)

Definition Select (caller : stack) (params : list value) : M unit :=
  query (method_frame "Select" :: caller) params.
Definition First (caller : stack) (params : list value) : M unit :=
  query (method_frame "First" :: caller) params.
Definition Find (caller : stack) (params : list value) : M unit :=
  query (method_frame "Find" :: caller) params.
Definition Related (caller : stack) (params : list value) : M unit :=
  query (method_frame "Related" :: caller) params.
Definition Update (caller : stack) (attrs : list value) : M unit :=
  query (method_frame "Update" :: caller) attrs.
Definition Save (caller : stack) (v : value) : M unit :=
  query (method_frame "Save" :: caller) [v].
Definition Create (caller : stack) (v : value) : M unit :=
  query (method_frame "Create" :: caller) [v].
Definition CreateTable (caller : stack) (values : list value) : M unit :=
  query (method_frame "CreateTable" :: caller) values.
Definition HasTable (caller : stack) (v : value) : M bool :=
  query (method_frame "HasTable" :: caller) [v];; mret true.
Definition Where (caller : stack) (params : list value) : M unit :=
  query (method_frame "Where" :: caller) params.
Definition Model (caller : stack) (v : value) : M unit :=
  query (method_frame "Model" :: caller) [v].
Definition Table (caller : stack) (v : value) : M unit :=
  query (method_frame "Table" :: caller) [v].
Definition Joins (caller : stack) (v : value) : M unit :=
  query (method_frame "Joins" :: caller) [v].
Definition Scan (caller : stack) (v : value) : M unit :=
  query (method_frame "Scan" :: caller) [v].
Definition Delete (caller : stack) (v : value) : M unit :=
  query (method_frame "Delete" :: caller) [v].

(** One invocation of an intercepted operation by the code under test. *)
Inductive call : Type :=
| CSelect (params : list value)
| CFirst (params : list value)
| CFind (params : list value)
| CRelated (params : list value)
| CUpdate (attrs : list value)
| CSave (v : value)
| CCreate (v : value)
| CCreateTable (values : list value)
| CHasTable (v : value)
| CWhere (params : list value)
| CModel (v : value)
| CTable (v : value)
| CJoins (v : value)
| CScan (v : value)
| CDelete (v : value).

(** The name of the operation and the parameters it forwards to [query]. *)
Definition call_name (c : call) : string :=
  match c with
  | CSelect _ => "Select" | CFirst _ => "First" | CFind _ => "Find"
  | CRelated _ => "Related" | CUpdate _ => "Update" | CSave _ => "Save"
  | CCreate _ => "Create" | CCreateTable _ => "CreateTable"
  | CHasTable _ => "HasTable" | CWhere _ => "Where" | CModel _ => "Model"
  | CTable _ => "Table" | CJoins _ => "Joins" | CScan _ => "Scan"
  | CDelete _ => "Delete"
  end.

Definition call_params (c : call) : list value :=
  match c with
  | CSelect ps | CFirst ps | CFind ps | CRelated ps | CUpdate ps
  | CCreateTable ps | CWhere ps => ps
  | CSave v | CCreate v | CHasTable v | CModel v | CTable v | CJoins v
  | CScan v | CDelete v => [v]
  end.

Definition invoke (caller : stack) (c : call) : M unit :=
  match c with
  | CSelect ps => Select caller ps
  | CFirst ps => First caller ps
  | CFind ps => Find caller ps
  | CRelated ps => Related caller ps
  | CUpdate ps => Update caller ps
  | CSave v => Save caller v
  | CCreate v => Create caller v
  | CCreateTable ps => CreateTable caller ps
  | CHasTable v => HasTable caller v;; mret tt
  | CWhere ps => Where caller ps
  | CModel v => Model caller v
  | CTable v => Table caller v
  | CJoins v => Joins caller v
  | CScan v => Scan caller v
  | CDelete v => Delete caller v
  end.

(** The code under test making the calls [cs] one after the other. *)
Fixpoint invoke_all (caller : stack) (cs : list call) : M unit :=
  match cs with
  | [] => mret tt
  | c :: cs' => invoke caller c;; invoke_all caller cs'
  end.


(** ** The remaining methods of the handle *)

(** [Close] does not look at the expectations. *)
Definition Close : M (option error) := mret None.

(** The method [DB()]. *)
Definition DB' : M (option sql_DB) := it ← get_it; mret (db it).

End Engine.

Arguments Returns {RT A} a it m.
Arguments Panics {RT A} p it m.

(** ** A small runtime to run the engine on

    Integers, strings and function values, the nil interface, and pointers
    to memory cells holding one of the former.  JSON texts are kept as the
    documents they denote. *)
Module Tiny.

Inductive data : Type :=
| DInt (n : Z)
| DString (s : string)
| DFunc (id : nat).

Inductive tvalue : Type :=
| TNil
| TData (d : data)
| TPtr (l : nat).

Definition tmem : Type := list data.

Inductive json : Type :=
| JNull
| JNumber (n : Z)
| JString (s : string).

Definition tload (m : tmem) (v : tvalue) : option tvalue :=
  match v with
  | TPtr l => TData <$> m !! l
  | _ => None
  end.

Definition data_Kind (d : data) : Kind :=
  match d with
  | DInt _ => Int
  | DString _ => String_
  | DFunc _ => Func
  end.

Definition tTypeOf (v : tvalue) : option Kind :=
  match v with
  | TNil => None
  | TData d => Some (data_Kind d)
  | TPtr _ => Some Ptr
  end.

(** Function values are never deeply equal; pointers are when they are
    the same pointer or point to deeply equal values. *)
Definition data_DeepEqual (x y : data) : bool :=
  match x, y with
  | DInt a, DInt b => a =? b
  | DString a, DString b => String.eqb a b
  | _, _ => false
  end.

Definition tDeepEqual (m : tmem) (x y : tvalue) : bool :=
  match x, y with
  | TNil, TNil => true
  | TData a, TData b => data_DeepEqual a b
  | TPtr a, TPtr b =>
      Nat.eqb a b ||
      match m !! a, m !! b with
      | Some u, Some v => data_DeepEqual u v
      | _, _ => false
      end
  | _, _ => false
  end.

Definition data_fmt (d : data) : string :=
  match d with
  | DInt n => pretty n
  | DString s => s
  | DFunc id => "0x" +:+ pretty id
  end.

Definition tfmt (m : tmem) (v : tvalue) : string :=
  match v with
  | TNil => "<nil>"
  | TData d => data_fmt d
  | TPtr l => "0xc" +:+ pretty l
  end.

Definition data_Marshal (d : data) : json + error :=
  match d with
  | DInt n => inl (JNumber n)
  | DString s => inl (JString s)
  | DFunc _ => inr (json_error "json: unsupported type: func()")
  end.

(** A pointer is marshalled as what it points to, a nil one as [null]. *)
Definition tMarshal (m : tmem) (v : tvalue) : json + error :=
  match v with
  | TNil => inl JNull
  | TData d => data_Marshal d
  | TPtr l =>
      match m !! l with
      | Some d => data_Marshal d
      | None => inl JNull
      end
  end.

(** [null] leaves the destination as it is; a number goes into an integer
    cell and a string into a string cell, anything else is an error. *)
Definition tUnmarshal (j : json) (dst : tvalue) (m : tmem) : tmem * option error :=
  match dst with
  | TPtr l =>
      match m !! l with
      | None => (m, Some (json_error "json: Unmarshal(nil)"))
      | Some cell =>
          match j, cell with
          | JNull, _ => (m, None)
          | JNumber n, DInt _ => (<[l := DInt n]> m, None)
          | JString s, DString _ => (<[l := DString s]> m, None)
          | JNumber _, _ =>
              (m, Some (json_error "json: cannot unmarshal number into Go value"))
          | JString _, _ =>
              (m, Some (json_error "json: cannot unmarshal string into Go value"))
          end
      end
  | _ => (m, Some (json_error "json: Unmarshal(non-pointer)"))
  end.

(** Modelled from the spec: [Copy] is called by [WithOutput] and is not in
    [main.go]; each output value is captured as an independent structural
    copy at declaration time.  A copy of a pointer points to a fresh cell
    with the same contents; other values are their own copy. *)
Definition tCopy (v : tvalue) (m : tmem) : tvalue * tmem :=
  match v with
  | TPtr l =>
      match m !! l with
      | Some d => (TPtr (length m), m ++ [d])
      | None => (v, m)
      end
  | _ => (v, m)
  end.

Definition runtime : Runtime := {|
  value := tvalue;
  mem := tmem;
  load := tload;
  rtype := Kind;
  reflect_TypeOf := tTypeOf;
  rtype_Kind := fun k => k;
  reflect_DeepEqual := tDeepEqual;
  fmt_v := tfmt;
  json_text := json;
  json_Marshal := tMarshal;
  json_Unmarshal := tUnmarshal;
  Copy := tCopy;
  sql_DB := unit;
  sqlmock_New := (tt, None)
|}.

(** The values and memories of [runtime], by their Go reading. *)
Definition nil : @value runtime := TNil.
Definition int (n : Z) : @value runtime := TData (DInt n).
Definition str (s : string) : @value runtime := TData (DString s).
Definition func (id : nat) : @value runtime := TData (DFunc id).
Definition ptr (l : nat) : @value runtime := TPtr l.
Definition cells (ds : list data) : @mem runtime := ds.
Definition mock_db : @sql_DB runtime := tt.

End Tiny.

(** ** Vocabulary of the properties *)

Section Vocabulary.
Context `{RT : Runtime}.

(** The last dot-separated part of a frame's [Function]. *)
Definition short_name (f : string) : string :=
  default "" (last (strings_Split f ".")).

(** The name [getFnName] reports to [query] when [query]'s callers are
    [callers]. *)
Definition reported_name (callers : stack) : string :=
  short_name (default "" (head callers)).

(** The error values the engine builds. *)
Definition unexpected_call (fnName : string) : error :=
  errors_New ("Unexpected call to " +:+ fnName).
Definition wrong_call (fnName expected : string) : error :=
  errors_New ("Unexpected call to " +:+ fnName +:+ "; expected " +:+ expected).
Definition not_enough_parameters : error := errors_New "Not enough parameters".
Definition too_many_parameters : error := errors_New "Too many parameters".
Definition unexpected_parameter (m : mem) (fn : string) (p expected : value) : error :=
  errors_New ("Unexpected parameter " +:+ fmt_v m p +:+ " in func " +:+ fn
              +:+ "; expected " +:+ fmt_v m expected).
Definition not_a_pointer (k : Kind) : error :=
  errors_New ("Out parameters must be pointers. Got kind " +:+ Kind_String k +:+ ".").
Definition not_all_met : error := errors_New "Not all expectations met".

(** The expectation the cursor points at, if any. *)
Definition next_expectation (it : DB) : option expectation :=
  if decide (0 <= index it) then expectations it !! Z.to_nat (index it) else None.

(** The handle with [errs] appended to its collected errors. *)
Definition with_errors (it : DB) (errs : list error) : DB :=
  mk_DB (db it) (Error it) (expectations it) (index it) (testErrors it ++ errs).

(** The handle after a recognized call that consumed [e] and recorded
    [errs]. *)
Definition consumed (it : DB) (e : expectation) (errs : list error) : DB :=
  mk_DB (db it) (Error' e) (expectations it) (index it + 1) (testErrors it ++ errs).

(** The (observed, expected) pairs that are not deeply equal, in order. *)
Definition mismatches (m : mem) (params expected : list value) : list (value * value) :=
  filter (fun pe => reflect_DeepEqual m pe.1 pe.2 = false) (zip params expected).

(** What the parameter check of a call of [fn] with [params] against [e]
    answers. *)
Definition params_verdict (m : mem) (e : expectation) (fn : string)
    (params : list value) : option error :=
  if decide (Params e = []) then None
  else if decide (length params < length (Params e))%nat then Some not_enough_parameters
  else if decide (length (Params e) < length params)%nat then Some too_many_parameters
  else (fun pe => unexpected_parameter m fn pe.1 pe.2) <$> head (mismatches m params (Params e)).

(** The errors the name check and the parameter check of a recognized
    call record, in that order. *)
Definition name_errors (fnName : string) (e : expectation) : list error :=
  if String.eqb fnName (Function e) then [] else [wrong_call fnName (Function e)].

Definition check_errors (m : mem) (e : expectation) (fnName : string)
    (params : list value) : list error :=
  name_errors fnName e ++ option_list (params_verdict m e fnName params).

(** The memory after [deepCopy src dst]. *)
Definition deepCopy_mem (src dst : value) (m : mem) : mem :=
  match json_Marshal m src with
  | inr _ => m
  | inl encoded => (json_Unmarshal encoded dst m).1
  end.

(** Projecting the outputs [outs] into the arguments [params], position by
    position: it ends with a memory and possibly an error, or it crashes on
    an argument that has no type. *)
Inductive projection : Type :=
| Projected (m : mem) (err : option error)
| Crashed (m : mem).

Fixpoint project (m : mem) (params outs : list value) : projection :=
  match params, outs with
  | p :: params', o :: outs' =>
      match reflect_TypeOf p with
      | None => Crashed m
      | Some t =>
          if decide (rtype_Kind t = Ptr) then project (deepCopy_mem o p m) params' outs'
          else Projected m (Some (not_a_pointer (rtype_Kind t)))
      end
  | _, _ => Projected m None
  end.


(** What [setOutputParams] answers on the handle [it] for a projection. *)
Definition projection_outcome (it : DB) (r : projection) : outcome (option error) :=
  match r with
  | Projected m' err => Returns err it m'
  | Crashed m' => Panics nil_pointer_dereference it m'
  end.

(** Every argument that has a declared output at its position is a
    pointer. *)
Definition pointers_for_outputs (params outs : list value) : Prop :=
  Forall (fun p => exists t, reflect_TypeOf p = Some t /\ rtype_Kind t = Ptr)
         (take (length outs) params).

(** Every argument that has a declared output at its position has a type
    (it is not the nil interface). *)
Definition typed_for_outputs (params outs : list value) : Prop :=
  Forall (fun p => is_Some (reflect_TypeOf p)) (take (length outs) params).

(** The call [c] is the one [e] expects: the expected name, parameters
    deeply equal to the expected ones (or none expected), and a pointer
    wherever an output is declared. *)
Definition call_conforms (m : mem) (e : expectation) (c : call) : Prop :=
  call_name c = Function e /\
  (Params e = [] \/
   Forall2 (fun p x => reflect_DeepEqual m p x = true) (call_params c) (Params e)) /\
  pointers_for_outputs (call_params c) (Output e).

(** The calls [cs] are, one after the other, the ones the expectations
    from the cursor on expect, each judged in the memory it is made in. *)
Inductive conforming (caller : stack) : DB -> mem -> list call -> Prop :=
| conforming_nil it m : conforming caller it m []
| conforming_cons it m c cs e :
    next_expectation it = Some e ->
    call_conforms m e c ->
    (forall it' m', invoke caller c it m = Returns tt it' m' ->
                    conforming caller it' m' cs) ->
    conforming caller it m (c :: cs).

(** The count error for [params] against the expected parameters of [e]. *)
Definition count_error (e : expectation) (params : list value) : error :=
  if decide (length params < length (Params e))%nat then not_enough_parameters
  else too_many_parameters.

(** The referent of [p] is deeply equal to [o]; or, for an output that
    was declared as a pointer, [p] itself is deeply equal to [o]
    ([reflect.DeepEqual] on two pointers compares what they point to). *)
Definition refers_to (m : mem) (p o : value) : Prop :=
  (exists v, load m p = Some v /\ reflect_DeepEqual m v o = true) \/
  reflect_DeepEqual m p o = true.



(** The string has no dot in it. *)
Fixpoint no_dot (s : string) : bool :=
  match s with
  | EmptyString => true
  | String c s' => negb (Ascii.eqb c ".") && no_dot s'
  end.

(** The handle a method leaves behind, whether it returned or panicked. *)
Definition outcome_handle {A} (o : outcome A) : DB :=
  match o with
  | Returns _ it _ => it
  | Panics _ it _ => it
  end.

End Vocabulary.

(** ** Concrete handles, calls and memories *)

Module Scenario.
Import Tiny.

(** A handle as [Open] returns it. *)
Definition opened : DB := (Open (RT := runtime) "sqlite3" []).1.

(** A handle with the expectations [es] declared and no call made. *)
Definition declared (es : list (@expectation runtime)) : DB :=
  mk_DB (Some mock_db) None es 0 [].

Definition not_found : error := errors_New "record not found".

(** [ExpectCall("Create").WithParams(7)] then
    [ExpectCall("First").WithOutput(5).WithError(not_found)]. *)
Definition create_then_first : DB :=
  on_last (WithError (Some not_found))
    (on_last (fun e => (WithOutput [int 5] e (cells [])).1)
       (ExpectCall "First"
          (on_last (WithParams [int 7]) (ExpectCall "Create" opened)))).

Definition expect_create : @expectation runtime :=
  mk_expectation "Create" [int 7] [] None.
Definition expect_first : @expectation runtime :=
  mk_expectation "First" [] [int 5] (Some not_found).

(** [ExpectCall("First").WithParams(1, 2).WithOutput(5)]. *)
Definition expect_first_two_params : @expectation runtime :=
  mk_expectation "First" [int 1; int 2] [int 5] None.

(** [ExpectCall("Where").WithParams(1, 2)]. *)
Definition expect_where_two_params : @expectation runtime :=
  mk_expectation "Where" [int 1; int 2] [] None.



(** [ExpectCall("Save").WithOutput(5)]. *)
Definition expect_save_output : @expectation runtime :=
  mk_expectation "Save" [] [int 5] None.

(** [ExpectCall("First").WithOutput("abc")]. *)
Definition expect_first_string : @expectation runtime :=
  mk_expectation "First" [] [str "abc"] None.

(** [ExpectCall("Create").WithParams(&a)], [a] being the cell 0. *)
Definition expect_create_pointer : @expectation runtime :=
  mk_expectation "Create" [ptr 0] [] None.

(** [ExpectCall("First").WithOutput(&src)], [src] being the cell 1: the
    stored output is the copy [WithOutput] makes, in a cell of its own. *)
Definition first_with_pointer_output : DB * @mem runtime :=
  let it := ExpectCall "First" opened in
  match reverse (expectations it) with
  | e :: _ =>
      let '(e', m') := WithOutput [ptr 1] e (cells [DInt 0; DInt 5]) in
      (on_last (fun _ => e') it, m')
  | [] => (it, cells [DInt 0; DInt 5])
  end.


End Scenario.

(** ** Properties of the engine *)

Section Properties.
Context `{RT : Runtime}.

Implicit Types (it : DB) (m : mem) (e : expectation) (params : list value).

(** *** Slices and the current expectation *)

Lemma bind_Returns {A B} (c : M A) (f : A -> M B) it m a it' m' :
  c it m = Returns a it' m' -> (c ≫= f) it m = f a it' m'.
Proof. intros H. unfold mbind, M_bind. by rewrite H. Qed.

Lemma bind_Panics {A B} (c : M A) (f : A -> M B) it m p it' m' :
  c it m = Panics p it' m' -> (c ≫= f) it m = Panics p it' m'.
Proof. intros H. unfold mbind, M_bind. by rewrite H. Qed.

Lemma len_nonneg {A} (s : list A) : 0 <= len s.
Proof. unfold len. lia. Qed.

Lemma index_slice_lookup {A} (s : list A) (n : nat) (x : A) it m :
  s !! n = Some x -> index_slice s (Z.of_nat n) it m = Returns x it m.
Proof.
  intros Hx. unfold index_slice.
  pose proof (lookup_lt_Some _ _ _ Hx) as Hlt.
  replace ((0 <=? Z.of_nat n) && (Z.of_nat n <? len s)) with true.
  - by rewrite Nat2Z.id, Hx.
  - symmetry. apply andb_true_iff. split; [apply Z.leb_le | apply Z.ltb_lt];
      unfold len; lia.
Qed.

Lemma index_slice_not_out_of_range {A} (s : list A) (i : Z) it m :
  0 <= i < len s -> exists x, s !! Z.to_nat i = Some x /\ index_slice s i it m = Returns x it m.
Proof.
  intros [H0 Hlt]. unfold len in Hlt.
  destruct (lookup_lt_is_Some_2 s (Z.to_nat i)) as [x Hx]; [lia |].
  exists x. split; [done |].
  rewrite <- (Z2Nat.id i) at 1 by done. by apply index_slice_lookup.
Qed.

Lemma next_expectation_Some it e :
  next_expectation it = Some e ->
  0 <= index it < len (expectations it) /\
  expectations it !! Z.to_nat (index it) = Some e.
Proof.
  unfold next_expectation. case_decide; [| done]. intros He.
  pose proof (lookup_lt_Some _ _ _ He). unfold len. split; [lia | done].
Qed.

Lemma next_expectation_is_Some it :
  0 <= index it < len (expectations it) -> is_Some (next_expectation it).
Proof.
  intros [H0 Hlt]. unfold next_expectation. rewrite decide_True by done.
  apply lookup_lt_is_Some_2. unfold len in Hlt. lia.
Qed.

Lemma current_expectation_next it m e :
  next_expectation it = Some e -> current_expectation it m = Returns e it m.
Proof.
  intros He. apply next_expectation_Some in He as [[H0 _] He].
  unfold current_expectation.
  rewrite (bind_Returns _ _ it m it it m) by done.
  rewrite <- (Z2Nat.id (index it)) by done. by apply index_slice_lookup.
Qed.

(** *** [getFnName] *)

Lemma strings_Split_from_last sep s cur :
  is_Some (last (strings_Split_from sep s cur)).
Proof.
  revert cur. induction s as [| c s IH]; intros cur; simpl; [by eexists |].
  destruct (Ascii.eqb c sep).
  - destruct (IH "") as [x Hx].
    exists x. destruct (strings_Split_from sep s "") eqn:E; [done |].
    by rewrite last_cons, Hx.
  - apply IH.
Qed.

Lemma getFnName_Returns callers it m :
  getFnName (method_frame "query" :: callers) it m
  = Returns (reported_name callers) it m.
Proof.
  unfold getFnName, reported_name, short_name, runtime_Callers.
  cbn [drop take head].
  set (f := default "" (head _)).
  assert (f = default "" (head callers)) as -> by (by destruct callers).
  set (parts := strings_Split _ _).
  destruct (strings_Split_from_last "." (default "" (head callers)) "") as [x Hx].
  fold (strings_Split (default "" (head callers)) ".") in Hx. fold parts in Hx.
  rewrite Hx. simpl.
  rewrite last_lookup in Hx.
  assert (length parts <> 0%nat) as Hne
      by (intros E; rewrite E in Hx; destruct parts; done).
  replace (len parts - 1) with (Z.of_nat (Init.Nat.pred (length parts)))
    by (unfold len; lia).
  by apply index_slice_lookup.
Qed.


(** *** [verifyParams] *)

Lemma mismatches_cons m p x params expected :
  mismatches m (p :: params) (x :: expected)
  = if reflect_DeepEqual m p x then mismatches m params expected
    else (p, x) :: mismatches m params expected.
Proof.
  unfold mismatches. simpl. rewrite filter_cons. simpl.
  destruct (reflect_DeepEqual m p x); by case_decide.
Qed.

Lemma verifyParams_loop_spec fn it m e :
  next_expectation it = Some e ->
  forall rest (n : nat),
    (n + length rest <= length (Params e))%nat ->
    verifyParams_loop fn (Z.of_nat n) rest it m
    = Returns ((fun pe => unexpected_parameter m fn pe.1 pe.2)
                 <$> head (mismatches m rest (drop n (Params e)))) it m.
Proof.
  intros He. induction rest as [| p rest IH]; intros n Hn; simpl in *.
  - done.
  - destruct (lookup_lt_is_Some_2 (Params e) n) as [x Hx]; [lia |].
    rewrite (bind_Returns _ _ _ _ _ _ _ (current_expectation_next it m e He)).
    rewrite (bind_Returns _ _ _ _ _ _ _ (index_slice_lookup _ _ _ it m Hx)).
    rewrite (bind_Returns _ _ it m m it m) by done.
    rewrite (drop_S _ _ _ Hx), mismatches_cons.
    destruct (reflect_DeepEqual m p x); simpl.
    + replace (Z.of_nat n + 1) with (Z.of_nat (S n)) by lia.
      apply IH. lia.
    + done.
Qed.

Lemma verifyParams_Returns fn params it m e :
  next_expectation it = Some e ->
  verifyParams fn params it m = Returns (params_verdict m e fn params) it m.
Proof.
  intros He. unfold verifyParams, params_verdict.
  rewrite (bind_Returns _ _ _ _ _ _ _ (current_expectation_next it m e He)).
  destruct (Z.eqb_spec (len (Params e)) 0) as [H0 | H0].
  { rewrite decide_True; [done |]. unfold len in H0. destruct (Params e); [done | simpl in H0; lia]. }
  rewrite decide_False by (intros E; rewrite E in H0; done).
  rewrite (bind_Returns _ _ _ _ _ _ _ (current_expectation_next it m e He)).
  rewrite Z.gtb_ltb.
  destruct (Z.ltb_spec (len params) (len (Params e))) as [H1 | H1]; unfold len in H1.
  { rewrite decide_True by lia. done. }
  rewrite decide_False by lia.
  rewrite (bind_Returns _ _ _ _ _ _ _ (current_expectation_next it m e He)).
  destruct (Z.ltb_spec (len (Params e)) (len params)) as [H2 | H2]; unfold len in H2.
  { rewrite decide_True by lia. done. }
  rewrite decide_False by lia.
  pose proof (verifyParams_loop_spec fn it m e He params 0) as Hloop.
  change (Z.of_nat 0) with 0 in Hloop. rewrite Hloop by (simpl; lia). done.
Qed.

(** *** [setOutputParams] *)

Lemma deepCopy_Returns src dst it m :
  exists err, deepCopy src dst it m = Returns err it (deepCopy_mem src dst m).
Proof.
  unfold deepCopy, deepCopy_mem.
  rewrite (bind_Returns _ _ it m m it m) by done.
  destruct (json_Marshal m src) as [encoded | err]; [| by eexists].
  destruct (json_Unmarshal encoded dst m) as [m' err]. by eexists.
Qed.

Lemma setOutputParams_loop_spec it e :
  next_expectation it = Some e ->
  forall rest (n : nat) m,
    setOutputParams_loop (Z.of_nat n) rest it m
    = projection_outcome it (project m rest (drop n (Output e))).
Proof.
  intros He. induction rest as [| p rest IH]; intros n m; simpl.
  - done.
  - rewrite (bind_Returns _ _ _ _ _ _ _ (current_expectation_next it m e He)).
    rewrite Z.geb_leb.
    destruct (Z.leb_spec (len (Output e)) (Z.of_nat n)) as [Hge | Hlt]; unfold len in *.
    { rewrite drop_ge by lia. done. }
    destruct (lookup_lt_is_Some_2 (Output e) n) as [o Ho]; [lia |].
    rewrite (drop_S _ _ _ Ho).
    destruct (reflect_TypeOf p) as [t |]; [| done].
    destruct (decide (rtype_Kind t = Ptr)) as [Hk | Hk].
    + rewrite decide_False by (intros H; by apply H).
      rewrite (bind_Returns _ _ _ _ _ _ _ (current_expectation_next it m e He)).
      rewrite (bind_Returns _ _ _ _ _ _ _ (index_slice_lookup _ _ _ it m Ho)).
      destruct (deepCopy_Returns o p it m) as [err Hd].
      rewrite (bind_Returns _ _ _ _ _ _ _ Hd).
      replace (Z.of_nat n + 1) with (Z.of_nat (S n)) by lia.
      apply IH.
    + rewrite decide_True by done. done.
Qed.

Lemma setOutputParams_spec params it m e :
  next_expectation it = Some e ->
  setOutputParams params it m = projection_outcome it (project m params (Output e)).
Proof.
  intros He. unfold setOutputParams.
  rewrite (bind_Returns _ _ _ _ _ _ _ (current_expectation_next it m e He)).
  destruct (Z.eqb_spec (len (Output e)) 0) as [H0 | H0].
  - unfold len in H0. destruct (Output e); [| simpl in H0; lia].
    by destruct params.
  - pose proof (setOutputParams_loop_spec it e He params 0 m) as Hloop.
    change (Z.of_nat 0) with 0 in Hloop. by rewrite Hloop.
Qed.


(** *** [query] *)

Lemma int_wrap_small z : - 2 ^ 63 <= z <= max_int -> int_wrap z = z.
Proof.
  unfold int_wrap, max_int. intros Hz.
  rewrite Z.mod_small by lia. lia.
Qed.

Lemma with_errors_nil it : with_errors it [] = it.
Proof. destruct it. unfold with_errors. simpl. by rewrite app_nil_r. Qed.

Lemma with_errors_app it errs errs' :
  with_errors (with_errors it errs) errs' = with_errors it (errs ++ errs').
Proof. unfold with_errors. simpl. by rewrite app_assoc. Qed.

Lemma next_expectation_with_errors it errs :
  next_expectation (with_errors it errs) = next_expectation it.
Proof. done. Qed.

Lemma record_error_Returns (o : option error) it m :
  match o with Some err => append_testError err | None => mret tt end it m
  = Returns tt (with_errors it (option_list o)) m.
Proof. destruct o; [done |]. simpl. by rewrite with_errors_nil. Qed.

Lemma name_check_Returns fnName e it m :
  (if negb (String.eqb fnName (Function e))
   then append_testError (wrong_call fnName (Function e)) else mret tt) it m
  = Returns tt (with_errors it (name_errors fnName e)) m.
Proof.
  unfold name_errors. destruct (String.eqb fnName (Function e)); simpl; [| done].
  by rewrite with_errors_nil.
Qed.

Lemma setError_Returns it m e :
  next_expectation it = Some e ->
  setError it m
  = Returns tt (mk_DB (db it) (Error' e) (expectations it) (index it) (testErrors it)) m.
Proof.
  intros He. unfold setError.
  by rewrite (bind_Returns _ _ _ _ _ _ _ (current_expectation_next it m e He)).
Qed.

(** A call made when no expectation is left. *)
Lemma query_excess callers params it m :
  len (expectations it) <= index it ->
  query callers params it m
  = Returns tt (with_errors it [unexpected_call (reported_name callers)]) m.
Proof.
  intros Hge. unfold query.
  rewrite (bind_Returns _ _ _ _ _ _ _ (getFnName_Returns callers it m)).
  rewrite (bind_Returns _ _ it m it it m) by done.
  rewrite Z.geb_leb. destruct (Z.leb_spec (len (expectations it)) (index it)); [done | lia].
Qed.

(** A call made while an expectation is left: the name check, the
    parameter check and the output projection all run, in this order. *)
Lemma query_recognized callers params it m e :
  next_expectation it = Some e ->
  len (expectations it) <= max_int ->
  query callers params it m
  = match project m params (Output e) with
    | Crashed m' =>
        Panics nil_pointer_dereference
               (with_errors it (check_errors m e (reported_name callers) params)) m'
    | Projected m' err =>
        Returns tt
                (consumed it e (check_errors m e (reported_name callers) params
                                ++ option_list err)) m'
    end.
Proof.
  intros He Hmax. pose proof (next_expectation_Some it e He) as [Hidx _].
  unfold query.
  rewrite (bind_Returns _ _ _ _ _ _ _ (getFnName_Returns callers it m)).
  set (fnName := reported_name callers).
  rewrite (bind_Returns _ _ it m it it m) by done.
  rewrite Z.geb_leb. destruct (Z.leb_spec (len (expectations it)) (index it)); [lia |].
  rewrite (bind_Returns _ _ _ _ _ _ _ (current_expectation_next it m e He)).
  cbv zeta.
  rewrite (bind_Returns _ _ _ _ _ _ _ (name_check_Returns fnName e it m)).
  set (it1 := with_errors it (name_errors fnName e)).
  assert (next_expectation it1 = Some e) as He1 by done.
  rewrite (bind_Returns _ _ _ _ _ _ _ (verifyParams_Returns fnName params it1 m e He1)).
  rewrite (bind_Returns _ _ _ _ _ _ _ (record_error_Returns _ it1 m)).
  unfold it1. rewrite with_errors_app. fold (check_errors m e fnName params).
  set (it2 := with_errors it _).
  assert (next_expectation it2 = Some e) as He2 by done.
  pose proof (setOutputParams_spec params it2 m e He2) as Hout.
  destruct (project m params (Output e)) as [m' err | m']; simpl in Hout.
  - rewrite (bind_Returns _ _ _ _ _ _ _ Hout).
    rewrite (bind_Returns _ _ _ _ _ _ _ (record_error_Returns _ it2 m')).
    unfold it2. rewrite with_errors_app.
    set (it3 := with_errors it _).
    assert (next_expectation it3 = Some e) as He3 by done.
    rewrite (bind_Returns _ _ _ _ _ _ _ (setError_Returns it3 m' e He3)).
    unfold mbind, M_bind, get_it, set_it, consumed. simpl.
    rewrite int_wrap_small by (unfold max_int in *; lia). done.
  - by rewrite (bind_Panics _ _ _ _ _ _ _ Hout).
Qed.


(** *** The intercepted operations *)

Lemma invoke_query caller c it m :
  invoke caller c it m = query (method_frame (call_name c) :: caller) (call_params c) it m.
Proof.
  destruct c; try reflexivity.
  simpl. unfold HasTable, mbind, M_bind.
  by destruct (query _ _ it m) as [[] ? ? | ? ? ?].
Qed.

Lemma reported_name_method c caller :
  reported_name (method_frame (call_name c) :: caller) = call_name c.
Proof. by destruct c. Qed.

Lemma invoke_excess caller c it m :
  len (expectations it) <= index it ->
  invoke caller c it m = Returns tt (with_errors it [unexpected_call (call_name c)]) m.
Proof.
  intros Hge. rewrite invoke_query, query_excess by done.
  by rewrite reported_name_method.
Qed.

Lemma invoke_recognized caller c it m e :
  next_expectation it = Some e ->
  len (expectations it) <= max_int ->
  invoke caller c it m
  = match project m (call_params c) (Output e) with
    | Crashed m' =>
        Panics nil_pointer_dereference
               (with_errors it (check_errors m e (call_name c) (call_params c))) m'
    | Projected m' err =>
        Returns tt
                (consumed it e (check_errors m e (call_name c) (call_params c)
                                ++ option_list err)) m'
    end.
Proof.
  intros He Hmax. rewrite invoke_query, (query_recognized _ _ _ _ e) by done.
  by rewrite reported_name_method.
Qed.

(** *** [ExpectationsMet] *)

Lemma ExpectationsMet_Returns it m :
  ExpectationsMet it m
  = Returns match testErrors it with
            | err :: _ => Some err
            | [] => if index it <? len (expectations it) then Some not_all_met else None
            end it m.
Proof.
  unfold ExpectationsMet.
  rewrite (bind_Returns _ _ it m it it m) by done.
  destruct (testErrors it) as [| err errs] eqn:E.
  { change (0 <? len []) with false. cbv iota.
    by destruct (index it <? len (expectations it)). }
  replace (0 <? len (err :: errs)) with true
    by (symmetry; apply Z.ltb_lt; unfold len; simpl; lia).
  by rewrite (bind_Returns _ _ _ _ _ _ _ (index_slice_lookup (err :: errs) 0 err it m eq_refl)).
Qed.

(** C2: [ExpectationsMet] returns the first collected error when there is
    one (no later one, no aggregate); otherwise the error "Not all
    expectations met" when the cursor is below the number of expectations;
    otherwise nil.  It changes neither the handle nor the memory. *)
Theorem ExpectationsMet_first_error it m :
  ExpectationsMet it m
  = Returns match testErrors it with
            | err :: _ => Some err
            | [] => if index it <? len (expectations it) then Some not_all_met else None
            end it m.
Proof. apply ExpectationsMet_Returns. Qed.

(** *** Calls beyond the declared expectations *)

(** C3 (amended): a call made when the cursor is at or beyond the number
    of expectations appends exactly one "Unexpected call to <operation>"
    error and leaves the cursor (and everything else) as it was; so a run
    of such calls appends one such error per call, in order, and
    [ExpectationsMet] then returns the first collected error, which is the
    one of the first excess call when nothing had been collected before
    the excess calls. *)
Theorem excess_calls_unexpected caller c cs it m :
  len (expectations it) <= index it ->
  invoke caller c it m
  = Returns tt (with_errors it [unexpected_call (call_name c)]) m /\
  let it' := with_errors it ((fun c => unexpected_call (call_name c)) <$> cs) in
  invoke_all caller cs it m = Returns tt it' m /\
  index it' = index it /\
  ExpectationsMet it' m = Returns (head (testErrors it')) it' m /\
  (testErrors it = [] ->
   forall c1 cs1, cs = c1 :: cs1 ->
     ExpectationsMet it' m = Returns (Some (unexpected_call (call_name c1))) it' m).
Proof.
  intros Hge. split; [by apply invoke_excess |].
  assert (forall cs it, len (expectations it) <= index it ->
            invoke_all caller cs it m
            = Returns tt (with_errors it ((fun c => unexpected_call (call_name c)) <$> cs)) m)
    as Hrun.
  { clear. induction cs as [| c cs IH]; intros it Hge; simpl.
    - by rewrite with_errors_nil.
    - rewrite (bind_Returns _ _ _ _ _ _ _ (invoke_excess caller c it m Hge)).
      rewrite IH by done. by rewrite with_errors_app. }
  cbv zeta. split; [by apply Hrun |]. split; [done |].
  rewrite ExpectationsMet_Returns. simpl.
  assert ((index it <? len (expectations it)) = false) as Hlt by (apply Z.ltb_ge; lia).
  split.
  - destruct (testErrors it ++ _); [by rewrite Hlt | done].
  - intros Hnone c1 cs1 ->. by rewrite Hnone.
Qed.


(** *** A run that meets every expectation *)

Lemma mismatches_none m params expected :
  Forall2 (fun p x => reflect_DeepEqual m p x = true) params expected ->
  mismatches m params expected = [].
Proof.
  induction 1 as [| p x params expected Hpx _ IH]; [done |].
  by rewrite mismatches_cons, Hpx.
Qed.

Lemma check_errors_conforming m e c :
  call_conforms m e c -> check_errors m e (call_name c) (call_params c) = [].
Proof.
  intros (Hname & Hparams & _). unfold check_errors, name_errors, params_verdict.
  rewrite Hname, String.eqb_refl. simpl.
  case_decide; [done |].
  destruct Hparams as [? | Hall]; [done |].
  pose proof (Forall2_length _ _ _ Hall) as Hlen.
  rewrite !decide_False by lia.
  by rewrite (mismatches_none _ _ _ Hall).
Qed.

Lemma project_pointers m params outs :
  pointers_for_outputs params outs ->
  exists m', project m params outs = Projected m' None.
Proof.
  unfold pointers_for_outputs. revert m outs.
  induction params as [| p params IH]; intros m outs Hptr; simpl; [by eexists |].
  destruct outs as [| o outs]; [by eexists |].
  simpl in Hptr. apply Forall_cons in Hptr as [(t & -> & Hk) Hptr].
  rewrite decide_True by done. by apply IH.
Qed.

Lemma conforming_run caller cs :
  forall it m,
    testErrors it = [] ->
    len (expectations it) <= max_int ->
    index it + len cs = len (expectations it) ->
    conforming caller it m cs ->
    exists it' m',
      invoke_all caller cs it m = Returns tt it' m' /\
      testErrors it' = [] /\
      index it' = len (expectations it') /\
      Error it' = match cs with
                  | [] => Error it
                  | _ :: _ => last (expectations it) ≫= Error'
                  end.
Proof.
  induction cs as [| c cs IH]; intros it m Herrs Hmax Hidx Hconf.
  - exists it, m. unfold len in *. simpl in *. split_and!; [done | done | lia | done].
  - inversion Hconf as [| ? ? ? ? e He Hc Hrest]; subst.
    pose proof (invoke_recognized caller c it m e He Hmax) as Hinv.
    rewrite (check_errors_conforming _ _ _ Hc) in Hinv.
    destruct Hc as (_ & _ & Hptr).
    destruct (project_pointers m _ _ Hptr) as [m1 Hproj].
    rewrite Hproj in Hinv. simpl in Hinv.
    set (it1 := consumed it e []) in Hinv.
    destruct (IH it1 m1) as (it' & m' & Hrun & Herrs' & Hidx' & Herr').
    + simpl. by rewrite Herrs.
    + done.
    + simpl. unfold len in *. simpl in Hidx. lia.
    + by apply Hrest.
    + exists it', m'. simpl.
      rewrite (bind_Returns _ _ _ _ _ _ _ Hinv).
      split_and!; try done.
      rewrite Herr'. destruct cs as [| c' cs']; [| done].
      simpl. apply next_expectation_Some in He as [_ He].
      rewrite last_lookup.
      replace (Init.Nat.pred (length (expectations it))) with (Z.to_nat (index it))
        by (unfold len in Hidx; simpl in Hidx; lia).
      by rewrite He.
Qed.

(** C1: on a handle on which the expectations [es] were declared, if the
    code under test makes exactly as many calls, each the one the next
    expectation expects (its name, parameters deeply equal to the declared
    ones, pointers wherever outputs are declared), then the run returns,
    [ExpectationsMet] answers nil and the public [Error] field is the
    declared error of the last expectation (nil if it declared none or if
    no expectation was declared). *)
Theorem all_expectations_met caller d es cs m :
  length cs = length es ->
  len es <= max_int ->
  conforming caller (mk_DB d None es 0 []) m cs ->
  exists it' m',
    invoke_all caller cs (mk_DB d None es 0 []) m = Returns tt it' m' /\
    ExpectationsMet it' m' = Returns None it' m' /\
    Error it' = last es ≫= Error'.
Proof.
  intros Hlen Hmax Hconf.
  destruct (conforming_run caller cs (mk_DB d None es 0 []) m)
    as (it' & m' & Hrun & Herrs & Hidx & Herr);
    [done | done | unfold len; simpl; lia | done |].
  exists it', m'. split; [done |]. split.
  - rewrite ExpectationsMet_Returns, Herrs, Hidx, Z.ltb_irrefl. done.
  - rewrite Herr. destruct cs; [| done].
    destruct es; [done | simpl in Hlen; lia].
Qed.


(** *** The parameter check *)

Lemma mismatches_first m params expected :
  forall i p x,
    params !! i = Some p -> expected !! i = Some x ->
    reflect_DeepEqual m p x = false ->
    (forall j q y, (j < i)%nat -> params !! j = Some q -> expected !! j = Some y ->
                   reflect_DeepEqual m q y = true) ->
    head (mismatches m params expected) = Some (p, x).
Proof.
  revert expected. induction params as [| q params IH]; intros expected i p x Hp Hx Hne Hbefore;
    [done |].
  destruct expected as [| y expected]; [done |].
  rewrite mismatches_cons. destruct i as [| i]; simpl in Hp, Hx.
  - simplify_eq. by rewrite Hne.
  - rewrite (Hbefore 0%nat q y) by (done || lia).
    apply (IH expected i); try done.
    intros j q' y' Hj Hq' Hy'. apply (Hbefore (S j)); [lia | done | done].
Qed.

(** With expected parameters and as many observed ones, [verifyParams]
    answers nil when every position matches and otherwise the error of the
    first position that does not. *)
Lemma verifyParams_answer fn params it m e :
  next_expectation it = Some e ->
  Params e <> [] ->
  length params = length (Params e) ->
  exists r,
    verifyParams fn params it m = Returns r it m /\
    check_errors m e fn params = name_errors fn e ++ option_list r /\
    (Forall2 (fun p x => reflect_DeepEqual m p x = true) params (Params e) -> r = None) /\
    (forall i p x,
        params !! i = Some p -> Params e !! i = Some x ->
        reflect_DeepEqual m p x = false ->
        (forall j q y, (j < i)%nat -> params !! j = Some q -> Params e !! j = Some y ->
                       reflect_DeepEqual m q y = true) ->
        r = Some (unexpected_parameter m fn p x)).
Proof.
  intros He Hne Hlen. exists (params_verdict m e fn params).
  split; [by apply verifyParams_Returns |]. split; [done |].
  unfold params_verdict. rewrite decide_False by done. rewrite !decide_False by lia.
  split.
  - intros Hall. by rewrite (mismatches_none _ _ _ Hall).
  - intros i p x Hp Hx Hpx Hbefore.
    by rewrite (mismatches_first m params (Params e) i p x).
Qed.

(** *** A call with the wrong number of parameters *)

Lemma project_typed m params outs :
  typed_for_outputs params outs ->
  exists m' err, project m params outs = Projected m' err.
Proof.
  unfold typed_for_outputs. revert m outs.
  induction params as [| p params IH]; intros m outs Hty; simpl; [by eexists _, _ |].
  destruct outs as [| o outs]; [by eexists _, _ |].
  simpl in Hty. apply Forall_cons in Hty as [[t ->] Hty].
  case_decide; [by apply IH | by eexists _, _].
Qed.

Lemma params_verdict_count m e fn params :
  Params e <> [] ->
  length params <> length (Params e) ->
  params_verdict m e fn params = Some (count_error e params).
Proof.
  intros Hne Hlen. unfold params_verdict, count_error.
  rewrite decide_False by done.
  case_decide; [done |]. by rewrite decide_True by lia.
Qed.

(** C4 (amended): when the next expectation declares at least one expected
    parameter and the expected operation is called with another number of
    parameters, the parameter check records exactly one error, "Not enough
    parameters" or "Too many parameters", and compares no position.  The
    output projection is not aborted: it runs as in any recognized call, and
    for arguments that have a type it ends with a memory and at most one
    error of its own, recorded after the count error.  The cursor then
    advances by exactly one. *)
Theorem count_mismatch_recorded caller c it m e :
  next_expectation it = Some e ->
  len (expectations it) <= max_int ->
  call_name c = Function e ->
  Params e <> [] ->
  length (call_params c) <> length (Params e) ->
  typed_for_outputs (call_params c) (Output e) ->
  exists m' err,
    project m (call_params c) (Output e) = Projected m' err /\
    invoke caller c it m
    = Returns tt (consumed it e (count_error e (call_params c) :: option_list err)) m' /\
    index (consumed it e (count_error e (call_params c) :: option_list err)) = index it + 1.
Proof.
  intros He Hmax Hname Hne Hlen Hty.
  destruct (project_typed m _ _ Hty) as (m' & err & Hproj).
  exists m', err. split; [done |]. split; [| done].
  rewrite (invoke_recognized _ _ _ _ e) by done. rewrite Hproj.
  unfold check_errors, name_errors.
  rewrite Hname, String.eqb_refl, <- Hname.
  by rewrite (params_verdict_count m e _ _ Hne Hlen).
Qed.


(** *** Output projection *)

(** The output projection stops at the first argument that has a type
    other than a pointer, with the error that names its kind. *)
Lemma project_not_a_pointer m params outs i p t :
  params !! i = Some p ->
  (i < length outs)%nat ->
  reflect_TypeOf p = Some t ->
  rtype_Kind t <> Ptr ->
  (forall j q, (j < i)%nat -> params !! j = Some q ->
               exists u, reflect_TypeOf q = Some u /\ rtype_Kind u = Ptr) ->
  exists m', project m params outs = Projected m' (Some (not_a_pointer (rtype_Kind t))).
Proof.
  revert m outs i. induction params as [| q params IH]; intros m outs i Hp Hi Ht Hk Hbefore;
    [done |].
  destruct outs as [| o outs]; [simpl in Hi; lia |].
  destruct i as [| i]; simpl in *.
  - simplify_eq. rewrite Ht, decide_False by done. by eexists.
  - destruct (Hbefore 0%nat q) as (u & -> & Hu); [lia | done |].
    rewrite decide_True by done.
    apply (IH _ outs i); [done | lia | done | done |].
    intros j q' Hj Hq'. apply (Hbefore (S j)); [lia | done].
Qed.

(** The only error the output projection ever answers with is the one
    about pointers: what [deepCopy] returns does not reach its caller. *)
Lemma project_error_is_type_error m params outs m' err :
  project m params outs = Projected m' (Some err) ->
  exists k, err = not_a_pointer k.
Proof.
  revert m outs. induction params as [| p params IH]; intros m outs Hproj; simpl in Hproj;
    [done |].
  destruct outs as [| o outs]; [done |].
  destruct (reflect_TypeOf p) as [t |]; [| done].
  case_decide; [by eapply IH |].
  simplify_eq. by eexists.
Qed.

(** C5: when the next expectation has expected parameters and as many are
    observed, the call compares them position by position with
    [reflect.DeepEqual] and records at most one parameter error: the
    errors it appends are the name error (if any), then nothing when every
    position matches and otherwise the one "Unexpected parameter" error
    that names the observed and the expected value of the first position
    that does not match, then only what the output projection adds, which
    is never a parameter error.  This is so whether the call returns or
    panics in the projection. *)
Theorem parameter_mismatch_recorded caller c it m e :
  next_expectation it = Some e ->
  len (expectations it) <= max_int ->
  Params e <> [] ->
  length (call_params c) = length (Params e) ->
  exists r rest,
    verifyParams (call_name c) (call_params c) it m = Returns r it m /\
    testErrors (outcome_handle (invoke caller c it m))
    = testErrors it ++ name_errors (call_name c) e ++ option_list r ++ rest /\
    (rest = [] \/ exists k, rest = [not_a_pointer k]) /\
    (Forall2 (fun p x => reflect_DeepEqual m p x = true) (call_params c) (Params e) ->
     r = None) /\
    (forall i p x,
        call_params c !! i = Some p -> Params e !! i = Some x ->
        reflect_DeepEqual m p x = false ->
        (forall j q y, (j < i)%nat -> call_params c !! j = Some q ->
                       Params e !! j = Some y -> reflect_DeepEqual m q y = true) ->
        r = Some (unexpected_parameter m (call_name c) p x)).
Proof.
  intros He Hmax Hne Hlen.
  destruct (verifyParams_answer (call_name c) (call_params c) it m e He Hne Hlen)
    as (r & Hr & Hcheck & Hall & Hfirst).
  rewrite (invoke_recognized _ _ _ _ e) by done. rewrite Hcheck.
  destruct (project m (call_params c) (Output e)) as [m' err | m'] eqn:Hproj.
  - exists r, (option_list err). split_and!; try done.
    + simpl. by rewrite <- !app_assoc.
    + destruct err as [err |]; [| by left]. right.
      destruct (project_error_is_type_error _ _ _ _ _ Hproj) as [k ->]. by exists k.
  - exists r, []. split_and!; try done; [| by left].
    simpl. by rewrite app_nil_r.
Qed.





(** *** The cursor and the bounds of the expectation list *)

Lemma Open_cursor dialect args : index (Open dialect args).1 = 0.
Proof. unfold Open. by destruct sqlmock_New. Qed.

Lemma New_cursor it : index (New it) = 0.
Proof. unfold New. by destruct sqlmock_New. Qed.

Lemma ExpectCall_cursor fn it : index (ExpectCall fn it) = index it.
Proof. done. Qed.

Lemma on_last_cursor f it : index (on_last f it) = index it.
Proof. unfold on_last. by destruct (reverse (expectations it)). Qed.

Lemma cursor_after_call caller c it m :
  0 <= index it ->
  len (expectations it) <= max_int ->
  match invoke caller c it m with
  | Returns _ it' _ =>
      expectations it' = expectations it /\
      index it' = (if index it <? len (expectations it) then index it + 1 else index it)
  | Panics p it' _ =>
      p = nil_pointer_dereference /\
      expectations it' = expectations it /\ index it' = index it /\
      index it < len (expectations it)
  end.
Proof.
  intros H0 Hmax.
  destruct (Z.ltb_spec (index it) (len (expectations it))) as [Hlt | Hge].
  - destruct (next_expectation_is_Some it) as [e He]; [lia |].
    rewrite (invoke_recognized _ _ _ _ e) by done.
    by destruct (project m (call_params c) (Output e)).
  - by rewrite invoke_excess.
Qed.

(** C10: starting from a handle whose cursor is not negative, no sequence
    of intercepted operations ever panics with an index out of range:
    [query] returns early when the cursor is not below the number of
    expectations, and otherwise every [it.expectations[it.index]] of
    [verifyParams], [setOutputParams] and [setError], and every
    [Params[i]] and [Output[i]], is in range. *)
Theorem no_index_out_of_range caller cs it m :
  0 <= index it ->
  len (expectations it) <= max_int ->
  forall it' m', invoke_all caller cs it m <> Panics index_out_of_range it' m'.
Proof.
  revert it m. induction cs as [| c cs IH]; intros it m H0 Hmax it' m'; [done |].
  simpl. pose proof (cursor_after_call caller c it m H0 Hmax) as Hstep.
  unfold mbind, M_bind.
  destruct (invoke caller c it m) as [[] it1 m1 | p it1 m1].
  - destruct Hstep as [Hes Hidx]. apply IH.
    + rewrite Hidx. destruct (index it <? len (expectations it)); lia.
    + by rewrite Hes.
  - destruct Hstep as [-> _]. done.
Qed.


(** *** Which operation a call is reported as *)

Lemma string_append_cons x (a b : string) : String x a +:+ b = String x (a +:+ b).
Proof. reflexivity. Qed.

Lemma string_append_nil_r (a : string) : a +:+ "" = a.
Proof. induction a as [| x a IH]; [done |]. by rewrite string_append_cons, IH. Qed.

Lemma string_append_assoc (a b c : string) : (a +:+ b) +:+ c = a +:+ (b +:+ c).
Proof.
  induction a as [| x a IH]; [done |]. by rewrite !string_append_cons, IH.
Qed.

Lemma strings_Split_from_no_sep sep s cur :
  (forall c, c ∈ list_ascii_of_string s -> c <> sep) ->
  strings_Split_from sep s cur = [cur +:+ s].
Proof.
  revert cur. induction s as [| c s IH]; intros cur Hs; simpl.
  - by rewrite string_append_nil_r.
  - destruct (Ascii.eqb_spec c sep) as [-> | _].
    + exfalso. apply (Hs sep); [simpl; left | done].
    + rewrite IH by (intros c' Hc'; apply Hs; simpl; by right).
      by rewrite string_append_assoc.
Qed.

Lemma strings_Split_from_after_sep sep p s cur :
  last (strings_Split_from sep (p +:+ String sep s) cur)
  = last (strings_Split_from sep s "").
Proof.
  revert cur. induction p as [| c p IH]; intros cur.
  - change ("" +:+ String sep s) with (String sep s). simpl.
    rewrite Ascii.eqb_refl.
    destruct (strings_Split_from_last sep s "") as [x Hx].
    destruct (strings_Split_from sep s "") eqn:E; [done |]. by rewrite last_cons, Hx.
  - rewrite string_append_cons. simpl.
    destruct (Ascii.eqb c sep); [| apply IH].
    destruct (strings_Split_from_last sep (p +:+ String sep s) "") as [x Hx].
    rewrite <- (IH "").
    destruct (strings_Split_from sep (p +:+ String sep s) "") eqn:E; [done |].
    by rewrite last_cons, Hx.
Qed.

Lemma no_dot_chars s :
  no_dot s = true -> forall c, c ∈ list_ascii_of_string s -> c <> "."%char.
Proof.
  induction s as [| x s IH]; simpl; intros Hs c Hc.
  - by apply elem_of_nil in Hc.
  - apply andb_true_iff in Hs as [Hx Hs]. apply elem_of_cons in Hc as [-> | Hc].
    + intros ->. by rewrite Ascii.eqb_refl in Hx.
    + by apply IH.
Qed.

Lemma short_name_method name :
  no_dot name = true -> short_name (method_frame name) = name.
Proof.
  intros Hname. unfold short_name, strings_Split.
  change (method_frame name) with ("github.com/jinzhu/gorm.(*DB)" +:+ String "." name).
  rewrite strings_Split_from_after_sep.
  by rewrite (strings_Split_from_no_sep "." name "" (no_dot_chars name Hname)).
Qed.

Lemma getFnName_any stk it m :
  getFnName stk it m = Returns (short_name (default "" (stk !! 1%nat))) it m.
Proof.
  unfold getFnName, short_name, runtime_Callers.
  cbn [drop take].
  set (f := default "" (head _)).
  assert (f = default "" (stk !! 1%nat)) as ->
      by (by destruct stk as [| a [| b stk]]).
  set (parts := strings_Split _ _).
  destruct (strings_Split_from_last "." (default "" (stk !! 1%nat)) "") as [x Hx].
  fold (strings_Split (default "" (stk !! 1%nat)) ".") in Hx. fold parts in Hx.
  rewrite Hx. simpl.
  rewrite last_lookup in Hx.
  assert (length parts <> 0%nat) as Hne
      by (intros E; rewrite E in Hx; destruct parts; done).
  replace (len parts - 1) with (Z.of_nat (Init.Nat.pred (length parts)))
    by (unfold len; lia).
  by apply index_slice_lookup.
Qed.

(** X1: called from [query] called from a method of [*DB] whose name has
    no dot, [getFnName] reports exactly that method's name, whatever the
    frames above the method are. *)
Theorem getFnName_reports_method name caller it m :
  no_dot name = true ->
  getFnName (method_frame "query" :: method_frame name :: caller) it m
  = Returns name it m.
Proof.
  intros Hname. rewrite getFnName_any. simpl. by rewrite short_name_method.
Qed.

(** X2: [getFnName] never panics: [strings.Split] gives at least one part,
    so [pathParts[len(pathParts)-1]] is in range.  It reports the part after
    the last dot of the frame two levels up, and the empty name when there
    is no such frame. *)
Theorem getFnName_never_panics stk it m :
  getFnName stk it m = Returns (short_name (default "" (stk !! 1%nat))) it m /\
  (forall callee, getFnName [] it m = Returns "" it m /\
                  getFnName [callee] it m = Returns "" it m).
Proof.
  split; [apply getFnName_any |]. intros callee. by rewrite !getFnName_any.
Qed.

(** *** Declaring expectations *)

Lemma WithParams_append params e :
  WithParams params e
  = mk_expectation (Function e) (Params e ++ params) (Output e) (Error' e).
Proof.
  unfold WithParams. revert e. induction params as [| p params IH]; intros e; simpl.
  - destruct e. simpl. by rewrite app_nil_r.
  - rewrite IH. simpl. by rewrite <- app_assoc.
Qed.

(** X3: [WithParams] appends its arguments, in order, to the parameters
    already expected and touches nothing else; so calling it twice
    accumulates: it is the same as one call with both lists. *)
Theorem WithParams_accumulates params params' e :
  WithParams params e
  = mk_expectation (Function e) (Params e ++ params) (Output e) (Error' e) /\
  WithParams params' (WithParams params e) = WithParams (params ++ params') e.
Proof.
  split; [apply WithParams_append |].
  rewrite !WithParams_append. simpl. by rewrite app_assoc.
Qed.

Lemma on_last_ExpectCall f fn it :
  on_last f (ExpectCall fn it)
  = mk_DB (db it) (Error it) (expectations it ++ [f (mk_expectation fn [] [] None)])
          (index it) (testErrors it).
Proof.
  unfold on_last, ExpectCall. simpl.
  rewrite reverse_app, reverse_singleton.
  change ([?x] ++ ?l) with (x :: l). cbv iota beta.
  by rewrite reverse_involutive.
Qed.

Lemma on_last_snoc f it es e :
  expectations it = es ++ [e] ->
  on_last f it = mk_DB (db it) (Error it) (es ++ [f e]) (index it) (testErrors it).
Proof.
  intros Hes. unfold on_last. rewrite Hes, reverse_app, reverse_singleton.
  change ([?x] ++ ?l) with (x :: l). cbv iota beta.
  by rewrite reverse_involutive.
Qed.

(** X5: the chain [ExpectCall(fn).WithParams(params...).WithError(err)]
    appends exactly one expectation, with that name, those parameters, no
    outputs and that error, after the expectations already declared; the
    earlier expectations, the cursor, the collected errors and the public
    [Error] field are left as they were. *)
Theorem declaration_chain_appends fn params err it :
  on_last (WithError err) (on_last (WithParams params) (ExpectCall fn it))
  = mk_DB (db it) (Error it)
          (expectations it ++ [mk_expectation fn params [] err])
          (index it) (testErrors it).
Proof.
  rewrite on_last_ExpectCall.
  erewrite on_last_snoc by reflexivity. simpl.
  by rewrite WithParams_append.
Qed.


(** *** What a single call does *)

Lemma name_errors_nil fnName e : name_errors fnName e = [] -> fnName = Function e.
Proof.
  unfold name_errors. destruct (String.eqb_spec fnName (Function e)); [done | discriminate].
Qed.

Lemma name_errors_length fnName e : (length (name_errors fnName e) <= 1)%nat.
Proof. unfold name_errors. destruct (String.eqb fnName (Function e)); simpl; lia. Qed.

Lemma check_errors_length m e fnName params :
  (length (check_errors m e fnName params) <= 2)%nat.
Proof.
  unfold check_errors. rewrite length_app.
  pose proof (name_errors_length fnName e).
  destruct (params_verdict m e fnName params); simpl; lia.
Qed.

(** X6: an expectation declared without parameters accepts any argument
    list: when the expected operation is called, whatever it is called
    with, no parameter error is recorded; the only error the call can
    record is the one of the output projection. *)
Theorem no_declared_parameters_accept_any caller c it m e :
  next_expectation it = Some e ->
  len (expectations it) <= max_int ->
  call_name c = Function e ->
  Params e = [] ->
  typed_for_outputs (call_params c) (Output e) ->
  exists m' err,
    project m (call_params c) (Output e) = Projected m' err /\
    invoke caller c it m = Returns tt (consumed it e (option_list err)) m'.
Proof.
  intros He Hmax Hname Hnone Hty.
  destruct (project_typed m _ _ Hty) as (m' & err & Hproj).
  exists m', err. split; [done |].
  rewrite (invoke_recognized _ _ _ _ e) by done. rewrite Hproj.
  unfold check_errors, name_errors, params_verdict.
  rewrite Hname, String.eqb_refl. by rewrite decide_True by done.
Qed.

(** X7: against an expectation that declares no output, a call never
    panics and never writes to memory, whatever its arguments are (the nil
    interface included): it returns in the memory it started from, having
    recorded the name and parameter errors only. *)
Theorem no_declared_output_keeps_memory caller c it m e :
  next_expectation it = Some e ->
  len (expectations it) <= max_int ->
  Output e = [] ->
  invoke caller c it m
  = Returns tt (consumed it e (check_errors m e (call_name c) (call_params c))) m.
Proof.
  intros He Hmax Hout. rewrite (invoke_recognized _ _ _ _ e) by done.
  rewrite Hout. destruct (call_params c); simpl; by rewrite app_nil_r.
Qed.

(** X8: the name check is soft: when another operation than the expected
    one is called, with parameters and pointers as expected, the call
    records exactly "Unexpected call to X; expected Y" and still consumes
    the expectation: the outputs are projected, [Error] is set and the
    cursor advances. *)
Theorem wrong_operation_still_consumes caller c it m e :
  next_expectation it = Some e ->
  len (expectations it) <= max_int ->
  call_name c <> Function e ->
  Params e = [] \/
    Forall2 (fun p x => reflect_DeepEqual m p x = true) (call_params c) (Params e) ->
  pointers_for_outputs (call_params c) (Output e) ->
  exists m',
    project m (call_params c) (Output e) = Projected m' None /\
    invoke caller c it m
    = Returns tt (consumed it e [wrong_call (call_name c) (Function e)]) m'.
Proof.
  intros He Hmax Hname Hparams Hptr.
  destruct (project_pointers m _ _ Hptr) as [m' Hproj].
  exists m'. split; [done |].
  rewrite (invoke_recognized _ _ _ _ e) by done. rewrite Hproj.
  unfold check_errors, name_errors, params_verdict.
  destruct (String.eqb_spec (call_name c) (Function e)) as [? | _]; [done |].
  case_decide; [done |].
  destruct Hparams as [? | Hall]; [done |].
  pose proof (Forall2_length _ _ _ Hall) as Hlen.
  rewrite !decide_False by lia.
  by rewrite (mismatches_none _ _ _ Hall).
Qed.

(** X9: every recognized call that returns overwrites the public [Error]
    field with the declared error of the expectation it consumed, nil when
    none was declared, whatever mismatches the call recorded; it advances
    the cursor by one and leaves the expectations as they were. *)
Theorem recognized_call_sets_Error caller c it m e it' m' :
  next_expectation it = Some e ->
  len (expectations it) <= max_int ->
  invoke caller c it m = Returns tt it' m' ->
  Error it' = Error' e /\
  index it' = index it + 1 /\
  expectations it' = expectations it.
Proof.
  intros He Hmax. rewrite (invoke_recognized _ _ _ _ e) by done.
  destruct (project m (call_params c) (Output e)); [| done].
  intros Hret. by simplify_eq.
Qed.

Lemma project_app m params extra outs :
  (length outs <= length params)%nat ->
  project m (params ++ extra) outs = project m params outs.
Proof.
  revert m outs. induction params as [| p params IH]; intros m outs Hlen.
  - destruct outs; [| simpl in Hlen; lia]. by destruct extra.
  - destruct outs as [| o outs]; [done |]. simpl in *.
    destruct (reflect_TypeOf p); [| done].
    case_decide; [| done]. apply IH. lia.
Qed.

(** X10: the output projection looks only at the arguments that have a
    declared output at their position: arguments after the last declared
    output are neither required to be pointers nor written to, so adding
    any of them changes nothing. *)
Theorem arguments_past_outputs_ignored params extra it m e :
  next_expectation it = Some e ->
  (length (Output e) <= length params)%nat ->
  setOutputParams (params ++ extra) it m = setOutputParams params it m.
Proof.
  intros He Hlen. rewrite !(setOutputParams_spec _ _ _ e) by done.
  by rewrite project_app.
Qed.

(** X11: [New] does not copy the handle it is called on: the new handle
    has no expectation, no collected error and cursor 0, so verification
    succeeds on it at once and any operation called on it is unexpected. *)
Theorem New_is_blank it caller c m :
  expectations (New it) = [] /\
  ExpectationsMet (New it) m = Returns None (New it) m /\
  invoke caller c (New it) m
  = Returns tt (with_errors (New it) [unexpected_call (call_name c)]) m.
Proof.
  assert (expectations (New it) = [] /\ index (New it) = 0 /\ testErrors (New it) = [])
    as (Hes & Hidx & Herrs) by (unfold New; by destruct sqlmock_New).
  split; [done |]. split.
  - by rewrite ExpectationsMet_Returns, Herrs, Hidx, Hes.
  - apply invoke_excess. rewrite Hes, Hidx. done.
Qed.


(** *** What a run of calls keeps *)

Lemma call_step caller c it m :
  0 <= index it ->
  len (expectations it) <= max_int ->
  expectations (outcome_handle (invoke caller c it m)) = expectations it /\
  db (outcome_handle (invoke caller c it m)) = db it /\
  (exists errs,
      testErrors (outcome_handle (invoke caller c it m)) = testErrors it ++ errs /\
      (length errs <= 3)%nat) /\
  index it <= index (outcome_handle (invoke caller c it m)) /\
  (index it <= len (expectations it) ->
   index (outcome_handle (invoke caller c it m)) <= len (expectations it)).
Proof.
  intros H0 Hmax.
  destruct (Z.ltb_spec (index it) (len (expectations it))) as [Hlt | Hge].
  - destruct (next_expectation_is_Some it) as [e He]; [lia |].
    rewrite (invoke_recognized _ _ _ _ e) by done.
    pose proof (check_errors_length m e (call_name c) (call_params c)) as Hcheck.
    destruct (project m (call_params c) (Output e)) as [m' err | m']; simpl.
    + split_and!; try done; try lia.
      eexists. split; [done |]. rewrite length_app. destruct err; simpl; lia.
    + split_and!; try done; try lia.
      eexists. split; [done |]. lia.
  - rewrite invoke_excess by done. simpl. split_and!; try done; try lia.
    eexists. split; [done |]. simpl. lia.
Qed.

Lemma run_keeps caller cs :
  forall it m,
    0 <= index it <= len (expectations it) ->
    len (expectations it) <= max_int ->
    expectations (outcome_handle (invoke_all caller cs it m)) = expectations it /\
    db (outcome_handle (invoke_all caller cs it m)) = db it /\
    (exists errs,
        testErrors (outcome_handle (invoke_all caller cs it m)) = testErrors it ++ errs /\
        (length errs <= 3 * length cs)%nat) /\
    index it <= index (outcome_handle (invoke_all caller cs it m))
             <= len (expectations it).
Proof.
  induction cs as [| c cs IH]; intros it m Hidx Hmax.
  - simpl. split_and!; try done; try lia. exists []. by rewrite app_nil_r.
  - destruct (call_step caller c it m) as (Hes & Hdb & (errs & Herrs & Hn) & Hle & Hbound);
      [lia | done |].
    simpl. unfold mbind, M_bind.
    destruct (invoke caller c it m) as [[] it1 m1 | p it1 m1]; simpl in *.
    + destruct (IH it1 m1) as (Hes' & Hdb' & (errs' & Herrs' & Hn') & Hle' & Hbound');
        [rewrite Hes; lia | by rewrite Hes |].
      rewrite Hes', Hdb', Herrs', Herrs, Hes in *.
      split_and!; try done; try lia.
      exists (errs ++ errs'). rewrite app_assoc. split; [done |].
      rewrite length_app. lia.
    + split_and!; try done; try lia. exists errs. split; [done | lia].
Qed.

(** X12: a run of calls, whether it returns or stops at a panic, never
    changes the declared expectations, only appends to the collected
    errors (at most three per call) and keeps the cursor between where it
    was and the number of expectations. *)
Theorem run_keeps_declarations caller cs it m :
  0 <= index it <= len (expectations it) ->
  len (expectations it) <= max_int ->
  expectations (outcome_handle (invoke_all caller cs it m)) = expectations it /\
  (exists errs,
      testErrors (outcome_handle (invoke_all caller cs it m)) = testErrors it ++ errs /\
      (length errs <= 3 * length cs)%nat) /\
  index it <= index (outcome_handle (invoke_all caller cs it m))
           <= len (expectations it).
Proof.
  intros Hidx Hmax.
  destruct (run_keeps caller cs it m Hidx Hmax) as (? & _ & ? & ?). done.
Qed.

Lemma run_cursor caller cs :
  forall it m it' m',
    0 <= index it <= len (expectations it) ->
    len (expectations it) <= max_int ->
    invoke_all caller cs it m = Returns tt it' m' ->
    index it' = Z.min (index it + len cs) (len (expectations it)) /\
    expectations it' = expectations it.
Proof.
  induction cs as [| c cs IH]; intros it m it' m' Hidx Hmax Hrun.
  - unfold invoke_all, mret, M_ret in Hrun. simplify_eq.
    unfold len in *. simpl. split; [lia | done].
  - simpl in Hrun. unfold mbind, M_bind in Hrun.
    pose proof (cursor_after_call caller c it m (proj1 Hidx) Hmax) as Hstep.
    destruct (invoke caller c it m) as [[] it1 m1 | p it1 m1]; [| done].
    destruct Hstep as [Hes Hidx1].
    destruct (IH it1 m1 it' m') as [Hidx' Hes']; [| by rewrite Hes | done |].
    + rewrite Hes, Hidx1. destruct (Z.ltb_spec (index it) (len (expectations it))); lia.
    + rewrite Hidx', Hes', Hes, Hidx1. split; [| done].
      unfold len. simpl.
      destruct (Z.ltb_spec (index it) (Z.of_nat (length (expectations it)))); unfold len in *; lia.
Qed.

(** X13: after a run that returns, the cursor is the number of
    expectations the run consumed: the cursor before plus the number of
    calls, capped at the number of declared expectations. *)
Theorem cursor_counts_recognized_calls caller cs it m it' m' :
  0 <= index it <= len (expectations it) ->
  len (expectations it) <= max_int ->
  invoke_all caller cs it m = Returns tt it' m' ->
  index it' = Z.min (index it + len cs) (len (expectations it)).
Proof. intros Hidx Hmax Hrun. by destruct (run_cursor caller cs it m it' m'). Qed.

(** X14: the first collected error is final: once an error has been
    collected, [ExpectationsMet] answers that same error after any further
    run of calls, whether the run returns or stops at a panic. *)
Theorem first_error_is_final caller cs it m m' err errs :
  0 <= index it <= len (expectations it) ->
  len (expectations it) <= max_int ->
  testErrors it = err :: errs ->
  ExpectationsMet (outcome_handle (invoke_all caller cs it m)) m'
  = Returns (Some err) (outcome_handle (invoke_all caller cs it m)) m'.
Proof.
  intros Hidx Hmax Herr.
  destruct (run_keeps caller cs it m Hidx Hmax) as (_ & _ & (more & Hmore & _) & _).
  by rewrite ExpectationsMet_Returns, Hmore, Herr.
Qed.

(** X15: a run with fewer calls than expectations left never passes
    verification: after it [ExpectationsMet] answers the first collected
    error, or "Not all expectations met" when none was collected. *)
Theorem too_few_calls_not_met caller cs it m it' m' :
  0 <= index it ->
  index it + len cs < len (expectations it) ->
  len (expectations it) <= max_int ->
  invoke_all caller cs it m = Returns tt it' m' ->
  ExpectationsMet it' m'
  = Returns (Some (default not_all_met (head (testErrors it')))) it' m'.
Proof.
  intros H0 Hfew Hmax Hrun.
  assert (0 <= len cs) by apply len_nonneg.
  destruct (run_cursor caller cs it m it' m') as [Hidx Hes]; [lia | done | done |].
  rewrite ExpectationsMet_Returns. destruct (testErrors it'); [| done]. simpl.
  rewrite Hidx, Hes.
  destruct (Z.ltb_spec (Z.min (index it + len cs) (len (expectations it)))
                       (len (expectations it))); [done | lia].
Qed.


Lemma recognized_step caller c it m e it' m' :
  next_expectation it = Some e ->
  len (expectations it) <= max_int ->
  invoke caller c it m = Returns tt it' m' ->
  index it' = index it + 1 /\ expectations it' = expectations it.
Proof.
  intros He Hmax. rewrite (invoke_recognized _ _ _ _ e) by done.
  destruct (project m (call_params c) (Output e)); [| done].
  intros Hret. by simplify_eq.
Qed.


(** *** What a passed verification tells *)

Lemma mismatches_nil_Forall2 m params expected :
  length params = length expected ->
  mismatches m params expected = [] ->
  Forall2 (fun p x => reflect_DeepEqual m p x = true) params expected.
Proof.
  revert expected. induction params as [| p params IH]; intros [| x expected] Hlen Hnone;
    try done; try (by constructor).
  rewrite mismatches_cons in Hnone.
  destruct (reflect_DeepEqual m p x) eqn:Hpx; [| done].
  constructor; [done |]. apply IH; [simpl in Hlen; lia | done].
Qed.

Lemma params_verdict_None m e fn params :
  params_verdict m e fn params = None ->
  Params e = [] \/ Forall2 (fun p x => reflect_DeepEqual m p x = true) params (Params e).
Proof.
  unfold params_verdict. case_decide; [by left |].
  repeat (case_decide; [done |]). intros Hnone. right.
  apply mismatches_nil_Forall2; [lia |].
  by destruct (mismatches m params (Params e)).
Qed.

Lemma project_None_pointers m params outs m' :
  project m params outs = Projected m' None -> pointers_for_outputs params outs.
Proof.
  unfold pointers_for_outputs. revert m outs.
  induction params as [| p params IH]; intros m outs Hproj.
  - rewrite take_nil. constructor.
  - destruct outs as [| o outs]; [constructor |]. simpl in *.
    destruct (reflect_TypeOf p) as [t |] eqn:Ht; [| done].
    case_decide; [| done]. constructor; [by exists t | by eapply IH].
Qed.

Lemma quiet_call_conforms caller c it m e it' m' :
  next_expectation it = Some e ->
  len (expectations it) <= max_int ->
  invoke caller c it m = Returns tt it' m' ->
  testErrors it' = testErrors it ->
  call_conforms m e c.
Proof.
  intros He Hmax. rewrite (invoke_recognized _ _ _ _ e) by done.
  destruct (project m (call_params c) (Output e)) as [m1 err | m1] eqn:Hproj; [| done].
  intros Hret Hquiet. simplify_eq. simpl in Hquiet.
  rewrite <- (app_nil_r (testErrors it)) in Hquiet at 2.
  apply app_inv_head in Hquiet. apply app_eq_nil in Hquiet as [Hcheck Herr].
  destruct err; [done |].
  apply app_eq_nil in Hcheck as [Hname Hverdict].
  split; [by apply name_errors_nil |]. split.
  - apply params_verdict_None with (fn := call_name c).
    by destruct (params_verdict m e (call_name c) (call_params c)).
  - by eapply project_None_pointers.
Qed.

Lemma quiet_run_conforming caller cs :
  forall it m it' m',
    0 <= index it <= len (expectations it) ->
    len (expectations it) <= max_int ->
    invoke_all caller cs it m = Returns tt it' m' ->
    testErrors it' = testErrors it ->
    len (expectations it) <= index it' ->
    conforming caller it m cs /\ index it + len cs = len (expectations it).
Proof.
  induction cs as [| c cs IH]; intros it m it' m' Hidx Hmax Hrun Hquiet Hdone.
  - unfold invoke_all, mret, M_ret in Hrun. simplify_eq.
    split; [constructor | unfold len in *; simpl; lia].
  - simpl in Hrun. unfold mbind, M_bind in Hrun.
    destruct (call_step caller c it m) as (Hes & _ & (errs & Herrs & _) & Hle & Hbound);
      [lia | done |].
    destruct (invoke caller c it m) as [[] it1 m1 | p it1 m1] eqn:Hcall; [| done].
    simpl in Hes, Herrs, Hle, Hbound.
    destruct (run_keeps caller cs it1 m1) as (_ & _ & (errs' & Herrs' & _) & _);
      [rewrite Hes; lia | by rewrite Hes |].
    rewrite Hrun in Herrs'. simpl in Herrs'.
    rewrite Hquiet, Herrs, <- app_assoc in Herrs'.
    rewrite <- (app_nil_r (testErrors it)) in Herrs' at 1.
    apply app_inv_head in Herrs'. symmetry in Herrs'.
    apply app_eq_nil in Herrs' as [-> ->]. rewrite app_nil_r in Herrs.
    destruct (Z.ltb_spec (index it) (len (expectations it))) as [Hlt | Hge].
    + destruct (next_expectation_is_Some it) as [e He]; [lia |].
      pose proof (recognized_step caller c it m e it1 m1 He Hmax Hcall) as (Hidx1 & Hes1).
      destruct (IH it1 m1 it' m') as [Hconf Hcount];
        [rewrite Hes1; lia | by rewrite Hes1 | done | by rewrite Hquiet | by rewrite Hes1 |].
      split.
      * apply (conforming_cons _ _ _ _ _ e); [done | by eapply quiet_call_conforms |].
        intros it2 m2 Hcall2. rewrite Hcall in Hcall2. by simplify_eq.
      * rewrite Hes1, Hidx1 in Hcount. unfold len in *. simpl. lia.
    + rewrite invoke_excess in Hcall by done. simplify_eq. simpl in Herrs.
      rewrite <- (app_nil_r (testErrors it)) in Herrs at 2.
      by apply app_inv_head in Herrs.
Qed.

(** X16: verification is sound for runs that return: on a handle with the
    expectations [es] declared, if [ExpectationsMet] answers nil after the
    calls [cs], then there were exactly as many calls as expectations and
    each call was the one its expectation expects (the expected name,
    parameters deeply equal to the expected ones or none expected, pointers
    wherever outputs are declared). *)
Theorem passed_verification_conforms caller d err0 es cs m it' m' :
  len es <= max_int ->
  invoke_all caller cs (mk_DB d err0 es 0 []) m = Returns tt it' m' ->
  ExpectationsMet it' m' = Returns None it' m' ->
  length cs = length es /\ conforming caller (mk_DB d err0 es 0 []) m cs.
Proof.
  intros Hmax Hrun Hmet.
  assert (0 <= len es) by apply len_nonneg.
  destruct (run_cursor caller cs (mk_DB d err0 es 0 []) m it' m') as [_ Hes];
    [simpl; lia | done | done |]. simpl in Hes.
  rewrite ExpectationsMet_Returns in Hmet.
  destruct (testErrors it') eqn:Herrs; [| by simplify_eq].
  destruct (Z.ltb_spec (index it') (len (expectations it'))) as [| Hdone]; [by simplify_eq |].
  destruct (quiet_run_conforming caller cs (mk_DB d err0 es 0 []) m it' m') as [Hconf Hcount];
    [simpl; lia | done | done | done | simpl; by rewrite <- Hes |].
  split; [| done]. unfold len in Hcount. simpl in Hcount. lia.
Qed.


End Properties.

(** ** The engine on concrete inputs *)

Section Concrete.
Import Tiny Scenario.

Example create_then_first_declared :
  create_then_first = declared [expect_create; expect_first].
Proof. reflexivity. Qed.


(** [Create(7)] then [First(&d)] against [create_then_first]. *)
Lemma all_expectations_met_witness :
  exists it' m',
    invoke_all [] [CCreate (int 7); CFirst [ptr 0]]
               (declared [expect_create; expect_first]) (cells [DInt 0])
    = Returns tt it' m' /\
    ExpectationsMet it' m' = Returns None it' m' /\
    Error it' = Some not_found.
Proof.
  apply (all_expectations_met (RT := runtime) [] (Some mock_db)
           [expect_create; expect_first] [CCreate (int 7); CFirst [ptr 0]]
           (cells [DInt 0])).
  - reflexivity.
  - vm_compute. discriminate.
  - apply (conforming_cons _ _ _ _ _ expect_create).
    + reflexivity.
    + split; [reflexivity |]. split; [right; repeat constructor | constructor].
    + intros it' m' Hcall. vm_compute in Hcall. injection Hcall as <- <-.
      apply (conforming_cons (RT := runtime) _ _ _ _ _ expect_first).
      * reflexivity.
      * split; [reflexivity |]. split; [by left |].
        repeat constructor. by exists Ptr.
      * intros it' m' _. constructor.
Defined.

(** [Where(1)] then [Save(2)] with nothing declared. *)
Lemma excess_calls_unexpected_witness :
  let it := declared [] in
  let it' := with_errors it [unexpected_call "Where"; unexpected_call "Save"] in
  invoke [] (CWhere [int 1]) it (cells [])
  = Returns tt (with_errors it [unexpected_call "Where"]) (cells []) /\
  invoke_all [] [CWhere [int 1]; CSave (int 2)] it (cells []) = Returns tt it' (cells []) /\
  index it' = 0 /\
  ExpectationsMet it' (cells []) = Returns (Some (unexpected_call "Where")) it' (cells []).
Proof.
  destruct (excess_calls_unexpected (RT := runtime) [] (CWhere [int 1])
              [CWhere [int 1]; CSave (int 2)] (declared []) (cells []))
    as (Hone & Hrun & Hidx & Hmet & _).
  - vm_compute. discriminate.
  - repeat split; assumption.
Defined.

(** C3 (counterexample): with [ExpectCall("Create").WithParams(7)]
    declared, [Create(8)] consumes the only expectation and records a
    parameter error; [Where(1)] and [Save(2)] are then two excess calls,
    each appending its "Unexpected call" error, and [ExpectationsMet]
    answers the parameter error, not the error of the first excess call. *)
Lemma earlier_error_precedes_excess_calls :
  let it := declared [expect_create] in
  let earlier := errors_New "Unexpected parameter 8 in func Create; expected 7" in
  let it1 := consumed it expect_create [earlier] in
  let it2 := with_errors it1 [unexpected_call "Where"; unexpected_call "Save"] in
  invoke [] (CCreate (int 8)) it (cells []) = Returns tt it1 (cells []) /\
  len (expectations it1) <= index it1 /\
  invoke_all [] [CWhere [int 1]; CSave (int 2)] it1 (cells []) = Returns tt it2 (cells []) /\
  ExpectationsMet it2 (cells []) = Returns (Some earlier) it2 (cells []) /\
  ExpectationsMet it2 (cells []) <> Returns (Some (unexpected_call "Where")) it2 (cells []).
Proof.
  cbv zeta. split_and!; try reflexivity; vm_compute; intros H; discriminate H.
Qed.

(** Two different pointers to equal values are deeply equal parameters. *)
Example distinct_pointers_equal_referents_match :
  verifyParams "Create" [ptr 1] (declared [expect_create_pointer]) (cells [DInt 7; DInt 7])
  = Returns None (declared [expect_create_pointer]) (cells [DInt 7; DInt 7]).
Proof. reflexivity. Qed.

(** [First(&dest)] after [WithOutput(&src)]: [dest] gets the value of
    [src], and the pointers are deeply equal afterwards. *)
Example pointer_output_fills_destination :
  let '(it, m) := first_with_pointer_output in
  Output <$> expectations it = [[ptr 2]] /\
  m = cells [DInt 0; DInt 5; DInt 5] /\
  exists it',
    invoke [] (CFirst [ptr 0]) it m = Returns tt it' (cells [DInt 5; DInt 5; DInt 5]) /\
    refers_to (cells [DInt 5; DInt 5; DInt 5]) (ptr 0) (ptr 2).
Proof.
  vm_compute. split_and!; try reflexivity.
  eexists. split; [reflexivity |]. by right.
Qed.

(** [First(&d)] where two parameters are expected. *)
Lemma count_mismatch_recorded_witness :
  exists m' err,
    project (cells [DInt 0]) [ptr 0] [int 5] = Projected m' err /\
    invoke [] (CFirst [ptr 0]) (declared [expect_first_two_params]) (cells [DInt 0])
    = Returns tt (consumed (declared [expect_first_two_params]) expect_first_two_params
                           (not_enough_parameters :: option_list err)) m' /\
    index (consumed (declared [expect_first_two_params]) expect_first_two_params
                    (not_enough_parameters :: option_list err)) = 1.
Proof.
  apply (count_mismatch_recorded (RT := runtime) [] (CFirst [ptr 0])
           (declared [expect_first_two_params]) (cells [DInt 0]) expect_first_two_params).
  - reflexivity.
  - vm_compute. discriminate.
  - reflexivity.
  - discriminate.
  - simpl. lia.
  - repeat constructor. by exists Ptr.
Defined.

(** [Where(1, 3)] where [Where(1, 2)] is expected. *)
Lemma parameter_mismatch_recorded_witness :
  let it := declared [expect_where_two_params] in
  exists rest,
    testErrors (outcome_handle (invoke [] (CWhere [int 1; int 3]) it (cells [])))
    = testErrors it ++ [] ++
      [errors_New "Unexpected parameter 3 in func Where; expected 2"] ++ rest /\
    (rest = [] \/ exists k, rest = [not_a_pointer k]).
Proof.
  cbv zeta.
  destruct (parameter_mismatch_recorded (RT := runtime) [] (CWhere [int 1; int 3])
              (declared [expect_where_two_params]) (cells []) expect_where_two_params)
    as (r & rest & _ & Herrs & Hrest & _ & Hfirst).
  - reflexivity.
  - vm_compute. discriminate.
  - discriminate.
  - reflexivity.
  - assert (r = Some (errors_New "Unexpected parameter 3 in func Where; expected 2")) as ->.
    { apply (Hfirst 1%nat (int 3) (int 2)); [reflexivity | reflexivity | reflexivity |].
      intros [| j] q y Hj Hq Hy; [| lia].
      injection Hq as <-. injection Hy as <-. reflexivity. }
    exists rest. split; [exact Herrs | exact Hrest].
Defined.

(** C4 (counterexample): with [ExpectCall("First").WithParams(1, 2).WithOutput(5)]
    declared, [First(&d)] has one parameter where two are expected; the
    call records "Not enough parameters" and still projects the output:
    [d] is 0 before the call and 5 after it, so the call does not end in
    the memory it started from. *)
Lemma count_mismatch_still_projects :
  let it := declared [expect_first_two_params] in
  let c := CFirst [ptr 0] in
  next_expectation it = Some expect_first_two_params /\
  call_name c = Function expect_first_two_params /\
  Params expect_first_two_params <> [] /\
  length (call_params c) <> length (Params expect_first_two_params) /\
  invoke [] c it (cells [DInt 0])
  = Returns tt (consumed it expect_first_two_params [not_enough_parameters]) (cells [DInt 5]) /\
  invoke [] c it (cells [DInt 0])
  <> Returns tt (consumed it expect_first_two_params [not_enough_parameters]) (cells [DInt 0]).
Proof.
  cbv zeta. split_and!; [reflexivity | reflexivity | discriminate | simpl; lia | reflexivity |].
  vm_compute. intros H. discriminate H.
Qed.




(** A run with a matching call, a call that panics, and past it. *)
Lemma no_index_out_of_range_witness :
  let it := declared [expect_create; expect_first] in
  0 <= index it /\
  len (expectations it) <= max_int /\
  invoke_all [] [CCreate (int 7); CFirst [nil]; CWhere [int 1]] it (cells [])
  <> Panics index_out_of_range it (cells []).
Proof.
  cbv zeta. split; [vm_compute; discriminate |]. split; [vm_compute; discriminate |].
  apply (no_index_out_of_range (RT := runtime) []
           [CCreate (int 7); CFirst [nil]; CWhere [int 1]]
           (declared [expect_create; expect_first]) (cells [])).
  - vm_compute. discriminate.
  - vm_compute. discriminate.
Defined.

(** C6 (failing input): with [ExpectCall("First").WithOutput(5)] declared,
    the cursor is below the number of expectations, so [First(nil)] is a
    recognized call; [setOutputParams] panics on it ([reflect.TypeOf(nil)]
    is nil) before [it.index++], and the cursor is still 0. *)
Lemma recognized_call_panic_keeps_cursor :
  let it := declared [mk_expectation "First" [] [int 5] None] in
  index it < len (expectations it) /\
  invoke [] (CFirst [nil]) it (cells []) = Panics nil_pointer_dereference it (cells []) /\
  index it = 0.
Proof. cbv zeta. split_and!; reflexivity. Qed.

(** C8 (failing input): with [ExpectCall("Save").WithOutput(5)] declared,
    [Save(3)] records "Out parameters must be pointers. Got kind int.",
    but [Save(nil)], whose argument is not a pointer either, panics in
    [setOutputParams] and records nothing. *)
Lemma nil_output_argument_panics :
  let it := declared [expect_save_output] in
  invoke [] (CSave (int 3)) it (cells [])
  = Returns tt (consumed it expect_save_output [not_a_pointer Int]) (cells []) /\
  @reflect_TypeOf runtime nil = None /\
  invoke [] (CSave nil) it (cells []) = Panics nil_pointer_dereference it (cells []).
Proof. cbv zeta. split_and!; reflexivity. Qed.

(** C9 (failing input): with [ExpectCall("First").WithOutput("abc")]
    declared and [n] an integer, [deepCopy] of the output into [&n] returns
    the error of [json.Unmarshal]; [First(&n)] drops it, no error is
    collected and [ExpectationsMet] answers nil. *)
Lemma deserialization_failure_dropped :
  let it := declared [expect_first_string] in
  let it' := consumed it expect_first_string [] in
  deepCopy (str "abc") (ptr 0) it (cells [DInt 0])
  = Returns (Some (json_error "json: cannot unmarshal string into Go value"))
            it (cells [DInt 0]) /\
  invoke [] (CFirst [ptr 0]) it (cells [DInt 0]) = Returns tt it' (cells [DInt 0]) /\
  testErrors it' = [] /\
  ExpectationsMet it' (cells [DInt 0]) = Returns None it' (cells [DInt 0]).
Proof. cbv zeta. split_and!; reflexivity. Qed.


(** *** Further runs *)

(** [Select] called from [main.main]. *)
Lemma getFnName_reports_method_witness :
  getFnName (method_frame "query" :: method_frame "Select" :: ["main.main"])
            (declared []) (cells [])
  = Returns "Select" (declared []) (cells []).
Proof.
  apply (getFnName_reports_method (RT := runtime) "Select" ["main.main"]).
  reflexivity.
Defined.

(** [First(&d, 9, nil)] against [ExpectCall("First").WithOutput(5)]. *)
Lemma no_declared_parameters_accept_any_witness :
  exists m' err,
    project (cells [DInt 0]) [ptr 0; int 9; nil] [int 5] = Projected m' err /\
    invoke [] (CFirst [ptr 0; int 9; nil]) (declared [expect_first]) (cells [DInt 0])
    = Returns tt (consumed (declared [expect_first]) expect_first (option_list err)) m'.
Proof.
  apply (no_declared_parameters_accept_any (RT := runtime) []
           (CFirst [ptr 0; int 9; nil]) (declared [expect_first]) (cells [DInt 0])
           expect_first).
  - reflexivity.
  - vm_compute. discriminate.
  - reflexivity.
  - reflexivity.
  - repeat constructor. by exists Ptr.
Defined.

(** [Create(nil)] against [ExpectCall("Create").WithParams(7)]. *)
Lemma no_declared_output_keeps_memory_witness :
  invoke [] (CCreate nil) (declared [expect_create]) (cells [DInt 0])
  = Returns tt
            (consumed (declared [expect_create]) expect_create
                      [errors_New "Unexpected parameter <nil> in func Create; expected 7"])
            (cells [DInt 0]).
Proof.
  apply (no_declared_output_keeps_memory (RT := runtime) [] (CCreate nil)
           (declared [expect_create]) (cells [DInt 0]) expect_create).
  - reflexivity.
  - vm_compute. discriminate.
  - reflexivity.
Defined.

(** [Find(&d)] where [First] is expected. *)
Lemma wrong_operation_still_consumes_witness :
  exists m',
    project (cells [DInt 0]) [ptr 0] [int 5] = Projected m' None /\
    invoke [] (CFind [ptr 0]) (declared [expect_first]) (cells [DInt 0])
    = Returns tt (consumed (declared [expect_first]) expect_first
                           [errors_New "Unexpected call to Find; expected First"]) m'.
Proof.
  apply (wrong_operation_still_consumes (RT := runtime) [] (CFind [ptr 0])
           (declared [expect_first]) (cells [DInt 0]) expect_first).
  - reflexivity.
  - vm_compute. discriminate.
  - discriminate.
  - by left.
  - repeat constructor. by exists Ptr.
Defined.

(** [Find(3)] where [First(&d)] is expected: two errors, and [Error] set. *)
Lemma recognized_call_sets_Error_witness :
  let o := invoke [] (CFind [int 3]) (declared [expect_first]) (cells [DInt 0]) in
  length (testErrors (outcome_handle o)) = 2%nat /\
  Error (outcome_handle o) = Some not_found /\
  index (outcome_handle o) = 1.
Proof.
  cbv zeta. split; [reflexivity |].
  destruct (recognized_call_sets_Error (RT := runtime) [] (CFind [int 3])
              (declared [expect_first]) (cells [DInt 0]) expect_first
              (outcome_handle (invoke [] (CFind [int 3]) (declared [expect_first])
                                      (cells [DInt 0])))
              (cells [DInt 0]))
    as (Herr & Hidx & _).
  - reflexivity.
  - vm_compute. discriminate.
  - reflexivity.
  - split; [exact Herr | exact Hidx].
Defined.

(** [First(&d, 1, nil)] projects like [First(&d)]. *)
Lemma arguments_past_outputs_ignored_witness :
  setOutputParams ([ptr 0] ++ [int 1; nil]) (declared [expect_first]) (cells [DInt 0])
  = setOutputParams [ptr 0] (declared [expect_first]) (cells [DInt 0]).
Proof.
  apply (arguments_past_outputs_ignored (RT := runtime) [ptr 0] [int 1; nil]
           (declared [expect_first]) (cells [DInt 0]) expect_first).
  - reflexivity.
  - simpl. lia.
Defined.

(** A run that stops at the panic of [First(nil)]. *)
Lemma run_keeps_declarations_witness :
  let it := declared [expect_create; expect_first] in
  let o := invoke_all [] [CCreate (int 8); CFirst [nil]; CWhere [int 1]] it (cells []) in
  expectations (outcome_handle o) = expectations it /\
  (exists errs,
      testErrors (outcome_handle o) = testErrors it ++ errs /\ (length errs <= 3 * 3)%nat) /\
  index it <= index (outcome_handle o) <= len (expectations it).
Proof.
  apply (run_keeps_declarations (RT := runtime) []
           [CCreate (int 8); CFirst [nil]; CWhere [int 1]]
           (declared [expect_create; expect_first]) (cells [])).
  - vm_compute. split; discriminate.
  - vm_compute. discriminate.
Defined.

(** Three calls against two expectations. *)
Lemma cursor_counts_recognized_calls_witness :
  index (outcome_handle
           (invoke_all [] [CCreate (int 8); CFirst [ptr 0]; CWhere []]
                       (declared [expect_create; expect_first]) (cells [DInt 0])))
  = 2.
Proof.
  apply (cursor_counts_recognized_calls (RT := runtime) []
           [CCreate (int 8); CFirst [ptr 0]; CWhere []]
           (declared [expect_create; expect_first]) (cells [DInt 0])
           (outcome_handle
              (invoke_all [] [CCreate (int 8); CFirst [ptr 0]; CWhere []]
                          (declared [expect_create; expect_first]) (cells [DInt 0])))
           (cells [DInt 5])).
  - vm_compute. split; discriminate.
  - vm_compute. discriminate.
  - reflexivity.
Defined.

(** An unexpected [Where] stays the answer after [Create(7)] and [Save(nil)]. *)
Lemma first_error_is_final_witness :
  let it := with_errors (declared [expect_create]) [unexpected_call "Where"] in
  let o := invoke_all [] [CCreate (int 7); CSave nil] it (cells []) in
  ExpectationsMet (outcome_handle o) (cells [])
  = Returns (Some (unexpected_call "Where")) (outcome_handle o) (cells []).
Proof.
  apply (first_error_is_final (RT := runtime) [] [CCreate (int 7); CSave nil]
           (with_errors (declared [expect_create]) [unexpected_call "Where"])
           (cells []) (cells []) (unexpected_call "Where") []).
  - vm_compute. split; discriminate.
  - vm_compute. discriminate.
  - reflexivity.
Defined.

(** [Create(7)] alone where [Create] and [First] are expected. *)
Lemma too_few_calls_not_met_witness :
  let it' := consumed (declared [expect_create; expect_first]) expect_create [] in
  ExpectationsMet it' (cells []) = Returns (Some not_all_met) it' (cells []).
Proof.
  apply (too_few_calls_not_met (RT := runtime) [] [CCreate (int 7)]
           (declared [expect_create; expect_first]) (cells [])
           (consumed (declared [expect_create; expect_first]) expect_create [])
           (cells [])).
  - vm_compute. discriminate.
  - reflexivity.
  - vm_compute. discriminate.
  - reflexivity.
Defined.

(** [Create(7)] then [First(&d)]: verification passes, so the run conforms. *)
Lemma passed_verification_conforms_witness :
  length [CCreate (int 7); CFirst [ptr 0]] = length [expect_create; expect_first] /\
  conforming [] (declared [expect_create; expect_first]) (cells [DInt 0])
             [CCreate (int 7); CFirst [ptr 0]].
Proof.
  apply (passed_verification_conforms (RT := runtime) [] (Some mock_db) None
           [expect_create; expect_first] [CCreate (int 7); CFirst [ptr 0]]
           (cells [DInt 0])
           (outcome_handle
              (invoke_all [] [CCreate (int 7); CFirst [ptr 0]]
                          (declared [expect_create; expect_first]) (cells [DInt 0])))
           (cells [DInt 5])).
  - vm_compute. discriminate.
  - reflexivity.
  - reflexivity.
Defined.


End Concrete.
